(** * Pinch / pan / rotate gesture recognizer

    A shallow embedding of
    [src/lib/gestures/pinch-pan-gesture.ts] of the tic-next-game-runner
    template and of the effect of its React hook [usePinchPanGesture], and
    the properties of the geometry, of the session state machine and of the
    attach / detach boundary.

    Conventions of the embedding:
    - a JavaScript [number] holding a coordinate, a distance, an angle or a
      clock reading is a real number ([R]); [Math.hypot] and [Math.atan2]
      are the Euclidean norm and the two-argument arctangent on [R];
      a [number] holding a count ([pointers.size]) or an identifier
      ([pointerId]) is an integer ([Z]);
    - [T | null] and an optional field [f?: T] are [option T];
    - the insertion-ordered [Map<number, MutablePoint>] is an association
      list in insertion order;
    - the variables captured by the closures of one [attachPinchPanGesture]
      call are the fields of the record [State]; every handler is a function
      from a context (state, clock position, effects so far) to a context. *)

From Stdlib Require Import Reals Lra List ZArith String Bool Lia.
Import ListNotations.

Open Scope R_scope.

(** ** Numbers *)

Module JsMath.

(** [Math.hypot(dx, dy)]. *)
Definition hypot (dx dy : R) : R := sqrt (dx * dx + dy * dy).

(** [Math.atan2(dy, dx)]: the angle of the vector [(dx, dy)], in
    [(-PI, PI]]; [0] at the origin. *)
Definition atan2 (dy dx : R) : R :=
  if Rlt_dec 0 dx then atan (dy / dx)
  else if Rlt_dec dx 0 then
    if Rle_dec 0 dy then atan (dy / dx) + PI else atan (dy / dx) - PI
  else if Rlt_dec 0 dy then PI / 2
  else if Rlt_dec dy 0 then - (PI / 2)
  else 0.

(** [a > b] and the truthiness of a number, as booleans. *)
Definition gtb (a b : R) : bool := if Rlt_dec b a then true else false.
Definition truthy (a : R) : bool := if Req_dec_T a 0 then false else true.

End JsMath.

(** ** Data model *)

Record MutablePoint : Type := mkPoint { x : R; y : R }.

Definition GesturePoint : Type := MutablePoint.

Inductive PinchPanGesturePhase : Type :=
| start
| move
| phase_end
| cancel.

Module Snapshot.
(** [PinchPanGestureSnapshot]. *)
Record t : Type := mk {
  phase : PinchPanGesturePhase;
  pointers : Z;
  center : GesturePoint;
  delta : GesturePoint;
  translation : GesturePoint;
  pinchDistance : option R;
  scale : R;
  rotationRad : R;
  timestamp : R
}.
End Snapshot.

Module Metrics.
Record t : Type := mk {
  center : MutablePoint;
  distance : option R;
  angleRad : option R
}.
End Metrics.

(** [PinchPanGestureHandlers]: the four optional callbacks.  A callback is
    the caller's code; the recognizer only tests whether it is there. *)
Record PinchPanGestureHandlers : Type := mkHandlers {
  onStart : bool;
  onMove : bool;
  onEnd : bool;
  onCancel : bool
}.

(** [PinchPanGestureOptions]: two optional booleans. *)
Record PinchPanGestureOptions : Type := mkOptions {
  opt_preventDefault : option bool;
  opt_capturePointers : option bool
}.

(** The fields of a [PointerEvent] that the recognizer reads. *)
Record PointerEvent : Type := mkPointerEvent {
  pointerId : Z;
  pointerType : string;
  clientX : R;
  clientY : R
}.

(** The notifications of the input boundary. *)
Inductive Notification : Type :=
| pointerdown (e : PointerEvent)
| pointermove (e : PointerEvent)
| pointerup (e : PointerEvent)
| pointercancel (e : PointerEvent).

(** ** Geometry *)

Definition clampPointersCount (count : Z) : Z :=
  if (count <=? 0)%Z then 0%Z
  else if (count =? 1)%Z then 1%Z
  else 2%Z.

Definition computeMetrics (points : list MutablePoint) : Metrics.t :=
  match points with
  | [] =>
      {| Metrics.center := {| x := 0; y := 0 |};
         Metrics.distance := None; Metrics.angleRad := None |}
  | [p0] =>
      {| Metrics.center := {| x := x p0; y := y p0 |};
         Metrics.distance := None; Metrics.angleRad := None |}
  | a :: b :: _ =>
      let cx := (x a + x b) / 2 in
      let cy := (y a + y b) / 2 in
      let dx := x b - x a in
      let dy := y b - y a in
      let distance := JsMath.hypot dx dy in
      let angleRad := JsMath.atan2 dy dx in
      {| Metrics.center := {| x := cx; y := cy |};
         Metrics.distance := Some distance;
         Metrics.angleRad := Some angleRad |}
  end.

Definition toReadonlyPoint (p : MutablePoint) : GesturePoint :=
  {| x := x p; y := y p |}.

(** The words of the specification for two points. *)
Module GeometrySpec.

Definition midpoint (a b : MutablePoint) : MutablePoint :=
  {| x := (x a + x b) / 2; y := (y a + y b) / 2 |}.

(** [d] is the Euclidean norm of [b - a]. *)
Definition is_norm (a b : MutablePoint) (d : R) : Prop :=
  0 <= d /\ d * d = (x b - x a) * (x b - x a) + (y b - y a) * (y b - y a).

(** [t] is the bearing of [b] seen from [a]: in [(-PI, PI]], and [b - a]
    is the vector of length [d] in direction [t]. *)
Definition is_bearing (a b : MutablePoint) (d t : R) : Prop :=
  - PI < t <= PI /\
  x b - x a = d * cos t /\
  y b - y a = d * sin t.

End GeometrySpec.

(** ** The contact registry: an insertion-ordered [Map] *)

Module PointerMap.

Definition t : Type := list (Z * MutablePoint).

Definition empty : t := [].

Fixpoint has (id : Z) (m : t) : bool :=
  match m with
  | [] => false
  | (k, _) :: rest => if (k =? id)%Z then true else has id rest
  end.

Fixpoint get (id : Z) (m : t) : option MutablePoint :=
  match m with
  | [] => None
  | (k, v) :: rest => if (k =? id)%Z then Some v else get id rest
  end.

(** [Map.prototype.set]: an existing key keeps its place, a new key goes
    last. *)
Fixpoint set (id : Z) (v : MutablePoint) (m : t) : t :=
  match m with
  | [] => [(id, v)]
  | (k, w) :: rest =>
      if (k =? id)%Z then (k, v) :: rest else (k, w) :: set id v rest
  end.

(** [Map.prototype.delete]. *)
Fixpoint delete (id : Z) (m : t) : t :=
  match m with
  | [] => []
  | (k, w) :: rest =>
      if (k =? id)%Z then rest else (k, w) :: delete id rest
  end.

(** [Array.from(m.values())]. *)
Definition values (m : t) : list MutablePoint := map snd m.

Definition size (m : t) : Z := Z.of_nat (List.length m).

Definition keys (m : t) : list Z := map fst m.

End PointerMap.

(** ** The variables of one attachment *)

Module State.
Record t : Type := mk {
  pointers : PointerMap.t;
  active : bool;
  gestureStartCenter : option MutablePoint;
  gestureStartDistance : option R;
  gestureStartAngleRad : option R;
  lastCenter : option MutablePoint;
  translation : MutablePoint
}.

(** The values the variables are declared with. *)
Definition initial : t :=
  {| pointers := PointerMap.empty;
     active := false;
     gestureStartCenter := None;
     gestureStartDistance := None;
     gestureStartAngleRad := None;
     lastCenter := None;
     translation := {| x := 0; y := 0 |} |}.
End State.

(** What a handler does to the world outside the variables. *)
Inductive Effect : Type :=
| PreventDefault (e : PointerEvent)
| SetPointerCapture (id : Z)
| Emit (s : Snapshot.t).

(** A context: the variables, the number of clock readings taken so far and
    the effects so far, oldest first. *)
Record Ctx : Type := mkCtx {
  vars : State.t;
  ticks : nat;
  effects : list Effect
}.

Definition with_vars (f : State.t -> State.t) (c : Ctx) : Ctx :=
  {| vars := f (vars c); ticks := ticks c; effects := effects c |}.

Definition perform (eff : Effect) (c : Ctx) : Ctx :=
  {| vars := vars c; ticks := ticks c; effects := effects c ++ [eff] |}.

Definition is_number (v : option R) : bool :=
  match v with Some _ => true | None => false end.

(** [v ?? d]. *)
Definition nullish (v : option R) (d : R) : R :=
  match v with Some r => r | None => d end.

(** The snapshots among the effects, oldest first. *)
Fixpoint emitted (effs : list Effect) : list Snapshot.t :=
  match effs with
  | [] => []
  | Emit s :: rest => s :: emitted rest
  | _ :: rest => emitted rest
  end.

Definition has_handler (h : PinchPanGestureHandlers)
    (ph : PinchPanGesturePhase) : bool :=
  match ph with
  | start => onStart h
  | move => onMove h
  | phase_end => onEnd h
  | cancel => onCancel h
  end.

(** The calls [emit] makes to the caller's handlers: a snapshot reaches the
    handler of its phase when the caller supplied one. *)
Definition handler_calls (h : PinchPanGestureHandlers)
    (effs : list Effect) : list Snapshot.t :=
  filter (fun s => has_handler h (Snapshot.phase s)) (emitted effs).

(** ** The handlers of one attachment *)

Section Recognizer.

(** [performance.now()]: the reading of the [n]-th call. *)
Variable now : nat -> R.

(** The two options, defaults resolved. *)
Variable preventDefault : bool.
Variable capturePointers : bool.

Definition emit (ph : PinchPanGesturePhase) (metrics : Metrics.t)
    (c : Ctx) : Ctx :=
  let st := vars c in
  let timestamp := now (ticks c) in
  let center := Metrics.center metrics in
  let lastCenter1 :=
    match State.lastCenter st with
    | Some p => p
    | None => {| x := x center; y := y center |}
    end in
  let gestureStartCenter1 :=
    match State.gestureStartCenter st with
    | Some p => p
    | None => {| x := x center; y := y center |}
    end in
  let delta :=
    {| x := x center - x lastCenter1; y := y center - y lastCenter1 |} in
  let translation1 :=
    {| x := x center - x gestureStartCenter1;
       y := y center - y gestureStartCenter1 |} in
  let hasPinch := is_number (Metrics.distance metrics) in
  let gestureStartDistance1 :=
    match State.gestureStartDistance st with
    | None =>
        if hasPinch then Some (nullish (Metrics.distance metrics) 0)
        else None
    | Some d => Some d
    end in
  let gestureStartAngleRad1 :=
    match State.gestureStartAngleRad st with
    | None =>
        if hasPinch then Some (nullish (Metrics.angleRad metrics) 0)
        else None
    | Some a => Some a
    end in
  let scale :=
    match gestureStartDistance1 with
    | Some d =>
        if hasPinch && JsMath.truthy d && JsMath.gtb d 0
        then nullish (Metrics.distance metrics) d / d
        else 1
    | None => 1
    end in
  let rotationRad :=
    match gestureStartAngleRad1, Metrics.angleRad metrics with
    | Some a0, Some a => if hasPinch then a - a0 else 0
    | _, _ => 0
    end in
  let snapshot :=
    {| Snapshot.phase := ph;
       Snapshot.pointers :=
         clampPointersCount (PointerMap.size (State.pointers st));
       Snapshot.center := toReadonlyPoint center;
       Snapshot.delta := toReadonlyPoint delta;
       Snapshot.translation := toReadonlyPoint translation1;
       Snapshot.pinchDistance := Metrics.distance metrics;
       Snapshot.scale := scale;
       Snapshot.rotationRad := rotationRad;
       Snapshot.timestamp := timestamp |} in
  {| vars :=
       {| State.pointers := State.pointers st;
          State.active := State.active st;
          State.gestureStartCenter := Some gestureStartCenter1;
          State.gestureStartDistance := gestureStartDistance1;
          State.gestureStartAngleRad := gestureStartAngleRad1;
          State.lastCenter := Some {| x := x center; y := y center |};
          State.translation := translation1 |};
     ticks := S (ticks c);
     effects := effects c ++ [Emit snapshot] |}.

Definition resetGestureState (st : State.t) : State.t :=
  {| State.pointers := State.pointers st;
     State.active := State.active st;
     State.gestureStartCenter := None;
     State.gestureStartDistance := None;
     State.gestureStartAngleRad := None;
     State.lastCenter := None;
     State.translation := {| x := 0; y := 0 |} |}.

Definition getActivePoints (st : State.t) : list MutablePoint :=
  PointerMap.values (State.pointers st).

Definition set_pointers (m : PointerMap.t) (st : State.t) : State.t :=
  {| State.pointers := m;
     State.active := State.active st;
     State.gestureStartCenter := State.gestureStartCenter st;
     State.gestureStartDistance := State.gestureStartDistance st;
     State.gestureStartAngleRad := State.gestureStartAngleRad st;
     State.lastCenter := State.lastCenter st;
     State.translation := State.translation st |}.

Definition set_active (b : bool) (st : State.t) : State.t :=
  {| State.pointers := State.pointers st;
     State.active := b;
     State.gestureStartCenter := State.gestureStartCenter st;
     State.gestureStartDistance := State.gestureStartDistance st;
     State.gestureStartAngleRad := State.gestureStartAngleRad st;
     State.lastCenter := State.lastCenter st;
     State.translation := State.translation st |}.

(** The five assignments that anchor the session to the geometry [m]. *)
Definition rebase (m : Metrics.t) (st : State.t) : State.t :=
  {| State.pointers := State.pointers st;
     State.active := State.active st;
     State.gestureStartCenter :=
       Some {| x := x (Metrics.center m); y := y (Metrics.center m) |};
     State.gestureStartDistance := Metrics.distance m;
     State.gestureStartAngleRad := Metrics.angleRad m;
     State.lastCenter :=
       Some {| x := x (Metrics.center m); y := y (Metrics.center m) |};
     State.translation := {| x := 0; y := 0 |} |}.

Definition tracked_type (ty : string) : bool :=
  String.eqb ty "touch" || String.eqb ty "pen" || String.eqb ty "mouse".

Definition size_is_1_or_2 (st : State.t) : bool :=
  (PointerMap.size (State.pointers st) =? 1)%Z
  || (PointerMap.size (State.pointers st) =? 2)%Z.

Definition onPointerDown (e : PointerEvent) (c : Ctx) : Ctx :=
  let c := if preventDefault then perform (PreventDefault e) c else c in
  let c :=
    if tracked_type (pointerType e)
    then with_vars
           (fun st =>
              set_pointers
                (PointerMap.set (pointerId e)
                   {| x := clientX e; y := clientY e |}
                   (State.pointers st)) st) c
    else c in
  let c :=
    if capturePointers then perform (SetPointerCapture (pointerId e)) c
    else c in
  let metrics := computeMetrics (getActivePoints (vars c)) in
  let c :=
    if negb (State.active (vars c))
    then with_vars (fun st => resetGestureState (set_active true st)) c
    else c in
  if size_is_1_or_2 (vars c)
  then emit start metrics (with_vars (rebase metrics) c)
  else c.

Definition onPointerMove (e : PointerEvent) (c : Ctx) : Ctx :=
  if negb (PointerMap.has (pointerId e) (State.pointers (vars c))) then c
  else
    let c := if preventDefault then perform (PreventDefault e) c else c in
    match PointerMap.get (pointerId e) (State.pointers (vars c)) with
    | None => c
    | Some _ =>
        (* p.x = e.clientX; p.y = e.clientY, on the stored object *)
        let c :=
          with_vars
            (fun st =>
               set_pointers
                 (PointerMap.set (pointerId e)
                    {| x := clientX e; y := clientY e |}
                    (State.pointers st)) st) c in
        let metrics := computeMetrics (getActivePoints (vars c)) in
        if negb (State.active (vars c)) then c
        else if size_is_1_or_2 (vars c) then emit move metrics c
        else c
    end.

Definition endLike (ph : PinchPanGesturePhase) (e : PointerEvent)
    (c : Ctx) : Ctx :=
  if negb (PointerMap.has (pointerId e) (State.pointers (vars c))) then c
  else
    let c := if preventDefault then perform (PreventDefault e) c else c in
    let c :=
      with_vars
        (fun st =>
           set_pointers
             (PointerMap.delete (pointerId e) (State.pointers st)) st) c in
    let remaining := getActivePoints (vars c) in
    let metrics :=
      match remaining with
      | _ :: _ => computeMetrics remaining
      | [] =>
          {| Metrics.center :=
               match State.lastCenter (vars c) with
               | Some p => {| x := x p; y := y p |}
               | None => {| x := clientX e; y := clientY e |}
               end;
             Metrics.distance := None;
             Metrics.angleRad := None |}
      end in
    let c := emit ph metrics c in
    if size_is_1_or_2 (vars c)
    then
      let m := computeMetrics (getActivePoints (vars c)) in
      emit start m (with_vars (rebase m) c)
    else if (PointerMap.size (State.pointers (vars c)) =? 0)%Z
    then with_vars (fun st => resetGestureState (set_active false st)) c
    else c.

Definition onPointerUp : PointerEvent -> Ctx -> Ctx := endLike phase_end.
Definition onPointerCancel : PointerEvent -> Ctx -> Ctx := endLike cancel.

Definition handle (n : Notification) : Ctx -> Ctx :=
  match n with
  | pointerdown e => onPointerDown e
  | pointermove e => onPointerMove e
  | pointerup e => onPointerUp e
  | pointercancel e => onPointerCancel e
  end.

(** The recognizer fed a notification sequence, oldest first. *)
Fixpoint feed (ns : list Notification) (c : Ctx) : Ctx :=
  match ns with
  | [] => c
  | n :: rest => feed rest (handle n c)
  end.

End Recognizer.

(** ** The attach / detach boundary

    A page holds the elements (each with its inline [touch-action] style and
    its event listeners), the closure environments created by the calls of
    [attachPinchPanGesture] made so far, and the position of the clock.
    An element is referred to by its index, an environment by its index. *)

(** The four listener functions one [attachPinchPanGesture] call creates. *)
Inductive ListenerFn : Type :=
| fn_onPointerDown
| fn_onPointerMove
| fn_onPointerUp
| fn_onPointerCancel.

Record Listener : Type := mkListener {
  l_type : string;
  l_closure : nat;
  l_fn : ListenerFn
}.

Record Element : Type := mkElement {
  touchAction : string;
  listeners : list Listener
}.

Record Closure : Type := mkClosure {
  cl_handlers : PinchPanGestureHandlers;
  cl_preventDefault : bool;
  cl_capturePointers : bool;
  cl_vars : State.t;
  cl_effects : list Effect
}.

Record Page : Type := mkPage {
  elements : list Element;
  closures : list Closure;
  page_ticks : nat
}.

Inductive JsError : Type :=
| TypeError.

(** How a call completes: with a value, or by throwing. *)
Inductive Completion (A : Type) : Type :=
| Normal (a : A)
| Throw (err : JsError).

Arguments Normal {A} a.
Arguments Throw {A} err.

Fixpoint replace_nth {A : Type} (k : nat) (v : A) (l : list A) : list A :=
  match l, k with
  | [], _ => []
  | _ :: rest, O => v :: rest
  | a :: rest, S k' => a :: replace_nth k' v rest
  end.

Definition fn_eqb (f g : ListenerFn) : bool :=
  match f, g with
  | fn_onPointerDown, fn_onPointerDown => true
  | fn_onPointerMove, fn_onPointerMove => true
  | fn_onPointerUp, fn_onPointerUp => true
  | fn_onPointerCancel, fn_onPointerCancel => true
  | _, _ => false
  end.

Definition listener_eqb (a b : Listener) : bool :=
  String.eqb (l_type a) (l_type b)
  && Nat.eqb (l_closure a) (l_closure b)
  && fn_eqb (l_fn a) (l_fn b).

(** [addEventListener]: a listener already registered is not registered
    twice. *)
Definition addEventListener (l : Listener) (el : Element) : Element :=
  {| touchAction := touchAction el;
     listeners :=
       if existsb (listener_eqb l) (listeners el) then listeners el
       else listeners el ++ [l] |}.

(** [removeEventListener]: nothing happens when the listener is not
    registered. *)
Definition removeEventListener (l : Listener) (el : Element) : Element :=
  {| touchAction := touchAction el;
     listeners := filter (fun l' => negb (listener_eqb l l')) (listeners el) |}.

Definition update_element (t : nat) (f : Element -> Element) (pg : Page)
    : Page :=
  match nth_error (elements pg) t with
  | Some el =>
      {| elements := replace_nth t (f el) (elements pg);
         closures := closures pg;
         page_ticks := page_ticks pg |}
  | None => pg
  end.

Definition update_closure (k : nat) (f : Closure -> Closure) (pg : Page)
    : Page :=
  match nth_error (closures pg) k with
  | Some cl =>
      {| elements := elements pg;
         closures := replace_nth k (f cl) (closures pg);
         page_ticks := page_ticks pg |}
  | None => pg
  end.

Definition type_of (n : Notification) : string :=
  match n with
  | pointerdown _ => "pointerdown"
  | pointermove _ => "pointermove"
  | pointerup _ => "pointerup"
  | pointercancel _ => "pointercancel"
  end.

Definition event_of (n : Notification) : PointerEvent :=
  match n with
  | pointerdown e | pointermove e | pointerup e | pointercancel e => e
  end.

Definition four_listeners (k : nat) : list Listener :=
  [ {| l_type := "pointerdown"; l_closure := k; l_fn := fn_onPointerDown |};
    {| l_type := "pointermove"; l_closure := k; l_fn := fn_onPointerMove |};
    {| l_type := "pointerup"; l_closure := k; l_fn := fn_onPointerUp |};
    {| l_type := "pointercancel"; l_closure := k;
       l_fn := fn_onPointerCancel |} ].

(** The function [attachPinchPanGesture] returns, for the environment [k]
    attached to the element [t]. *)
Definition detach (k t : nat) (pg : Page) : Page :=
  let pg :=
    update_element t
      (fun el => fold_left (fun el l => removeEventListener l el)
                   (four_listeners k) el) pg in
  update_closure k
    (fun cl =>
       {| cl_handlers := cl_handlers cl;
          cl_preventDefault := cl_preventDefault cl;
          cl_capturePointers := cl_capturePointers cl;
          cl_vars :=
            resetGestureState
              (set_active false (set_pointers PointerMap.empty (cl_vars cl)));
          cl_effects := cl_effects cl |}) pg.

Definition option_default (d : bool) (v : option bool) : bool :=
  match v with Some b => b | None => d end.

(** [attachPinchPanGesture(target, handlers, options)].  A missing target
    ([null] or [undefined]) is [None]; reading [target.style] then throws. *)
Definition attachPinchPanGesture (target : option nat)
    (handlers : PinchPanGestureHandlers) (options : PinchPanGestureOptions)
    (pg : Page) : Completion (Page * (Page -> Page)) :=
  let preventDefault := option_default true (opt_preventDefault options) in
  let capturePointers := option_default true (opt_capturePointers options) in
  let k := List.length (closures pg) in
  let cl :=
    {| cl_handlers := handlers;
       cl_preventDefault := preventDefault;
       cl_capturePointers := capturePointers;
       cl_vars := State.initial;
       cl_effects := [] |} in
  match target with
  | None => Throw TypeError
  | Some t =>
      let pg :=
        {| elements := elements pg;
           closures := closures pg ++ [cl];
           page_ticks := page_ticks pg |} in
      let pg :=
        update_element t
          (fun el =>
             {| touchAction :=
                  if String.eqb (touchAction el) "" then "none"
                  else touchAction el;
                listeners := listeners el |}) pg in
      let pg :=
        update_element t
          (fun el => fold_left (fun el l => addEventListener l el)
                       (four_listeners k) el) pg in
      Normal (pg, detach k t)
  end.

Section Dispatch.

Variable now : nat -> R.

Definition run_listener (pd cp : bool) (f : ListenerFn)
    : PointerEvent -> Ctx -> Ctx :=
  match f with
  | fn_onPointerDown => onPointerDown now pd cp
  | fn_onPointerMove => onPointerMove now pd
  | fn_onPointerUp => onPointerUp now pd
  | fn_onPointerCancel => onPointerCancel now pd
  end.

(** One listener called with the event. *)
Definition invoke (n : Notification) (l : Listener) (pg : Page) : Page :=
  match nth_error (closures pg) (l_closure l) with
  | None => pg
  | Some cl =>
      let c :=
        run_listener (cl_preventDefault cl) (cl_capturePointers cl)
          (l_fn l) (event_of n)
          {| vars := cl_vars cl;
             ticks := page_ticks pg;
             effects := cl_effects cl |} in
      {| elements := elements pg;
         closures :=
           replace_nth (l_closure l)
             {| cl_handlers := cl_handlers cl;
                cl_preventDefault := cl_preventDefault cl;
                cl_capturePointers := cl_capturePointers cl;
                cl_vars := vars c;
                cl_effects := effects c |} (closures pg);
         page_ticks := ticks c |}
  end.

(** The notification [n] delivered to the element [t]: the listeners
    registered on [t] for its type are called in registration order. *)
Definition dispatch (t : nat) (n : Notification) (pg : Page) : Page :=
  match nth_error (elements pg) t with
  | None => pg
  | Some el =>
      fold_left (fun pg l => invoke n l pg)
        (filter (fun l => String.eqb (l_type l) (type_of n)) (listeners el))
        pg
  end.

(** A schedule: notifications, each with the element it is delivered to,
    oldest first. *)
Fixpoint deliver (sched : list (nat * Notification)) (pg : Page) : Page :=
  match sched with
  | [] => pg
  | (t, n) :: rest => deliver rest (dispatch t n pg)
  end.

End Dispatch.

(** The notifications a schedule delivers to the element [t]. *)
Definition sent_to (t : nat) (sched : list (nat * Notification))
    : list Notification :=
  map snd (filter (fun tn => Nat.eqb (fst tn) t) sched).

(** The snapshots the environment [k] has emitted. *)
Definition snapshots_of (k : nat) (pg : Page) : list Snapshot.t :=
  match nth_error (closures pg) k with
  | Some cl => emitted (cl_effects cl)
  | None => []
  end.

(** A snapshot without its clock reading. *)
Definition untimed (s : Snapshot.t) : Snapshot.t :=
  {| Snapshot.phase := Snapshot.phase s;
     Snapshot.pointers := Snapshot.pointers s;
     Snapshot.center := Snapshot.center s;
     Snapshot.delta := Snapshot.delta s;
     Snapshot.translation := Snapshot.translation s;
     Snapshot.pinchDistance := Snapshot.pinchDistance s;
     Snapshot.scale := Snapshot.scale s;
     Snapshot.rotationRad := Snapshot.rotationRad s;
     Snapshot.timestamp := 0 |}.

(** A fresh context: the variables as declared, no effect yet. *)
Definition fresh : Ctx :=
  {| vars := State.initial; ticks := 0; effects := [] |}.

(** ** Vocabulary of the properties *)

(** The snapshot emitted last, if any. *)
Definition last_emitted (c : Ctx) : option Snapshot.t :=
  last (map Some (emitted (effects c))) None.

Definition origin : MutablePoint := {| x := 0; y := 0 |}.

(** An anchor distance, when defined, is not negative. *)
Definition anchor_ok (st : State.t) : Prop :=
  forall d0, State.gestureStartDistance st = Some d0 -> 0 <= d0.

(** A pairwise distance, when defined, is not negative. *)
Definition metrics_ok (m : Metrics.t) : Prop :=
  forall d, Metrics.distance m = Some d -> 0 <= d.

(** The geometry [endLike] emits with when no contact remains. *)
Definition no_pinch (p : MutablePoint) : Metrics.t :=
  {| Metrics.center := p; Metrics.distance := None;
     Metrics.angleRad := None |}.

Section Runs.

Variable now : nat -> R.
Variable preventDefault : bool.
Variable capturePointers : bool.

(** At most one contact is live before and after every notification of
    the sequence. *)
Fixpoint at_most_one_live (ns : list Notification) (c : Ctx) : Prop :=
  (PointerMap.size (State.pointers (vars c)) <= 1)%Z /\
  match ns with
  | [] => True
  | n :: rest =>
      at_most_one_live rest (handle now preventDefault capturePointers n c)
  end.

End Runs.

(** The scale rule in the words "current distance over anchor distance when
    the anchor distance is defined and nonzero, else 1". *)
Definition scale_as_worded (anchor current : option R) (scale : R) : Prop :=
  match anchor with
  | Some d0 =>
      if Req_dec_T d0 0 then scale = 1
      else exists d, current = Some d /\ scale = d / d0
  | None => scale = 1
  end.

(** The scale rule with the current distance required to be defined too. *)
Definition scale_rule (anchor current : option R) : R :=
  match current, anchor with
  | Some d, Some d0 => if Req_dec_T d0 0 then 1 else d / d0
  | _, _ => 1
  end.

(** The rotation rule: the raw difference when both angles are defined. *)
Definition rotation_rule (anchor current : option R) : R :=
  match current, anchor with
  | Some a, Some a0 => a - a0
  | _, _ => 0
  end.

(** A pointer event of a contact. *)
Definition contact (id : Z) (ty : string) (cx cy : R) : PointerEvent :=
  {| pointerId := id; pointerType := ty; clientX := cx; clientY := cy |}.

(** A clock for the examples: the [n]-th reading is [n]. *)
Definition steady_clock (n : nat) : R := INR n.

(** ** Vocabulary of the attach / detach boundary *)

(** A snapshot of a pan: scale 1 and rotation 0. *)
Definition quiet (s : Snapshot.t) : Prop :=
  Snapshot.scale s = 1 /\ Snapshot.rotationRad s = 0.

(** No listener of the page belongs to the environment [k]. *)
Definition unbound (k : nat) (pg : Page) : Prop :=
  forall el, In el (elements pg) ->
  forall l, In l (listeners el) -> l_closure l <> k.

(** Every listener of the page belongs to an environment of the page. *)
Definition page_ok (pg : Page) : Prop :=
  forall el, In el (elements pg) ->
  forall l, In l (listeners el) ->
  (l_closure l < List.length (closures pg))%nat.

(** No listener of [ls] belongs to the environment [k]. *)
Definition foreign (k : nat) (ls : list Listener) : Prop :=
  forall l, In l ls -> l_closure l <> k.

(** The environment a call of [attachPinchPanGesture] creates. *)
Definition new_closure (h : PinchPanGestureHandlers)
    (o : PinchPanGestureOptions) : Closure :=
  {| cl_handlers := h;
     cl_preventDefault := option_default true (opt_preventDefault o);
     cl_capturePointers := option_default true (opt_capturePointers o);
     cl_vars := State.initial;
     cl_effects := [] |}.

(** The element [el] once the environment [k] is attached to it. *)
Definition bound (k : nat) (el : Element) : Element :=
  {| touchAction :=
       if String.eqb (touchAction el) "" then "none"%string
       else touchAction el;
     listeners := listeners el ++ four_listeners k |}.

(** Two contexts with the same variables and the same snapshots up to their
    clock readings. *)
Definition alike (c1 c2 : Ctx) : Prop :=
  vars c1 = vars c2 /\
  map untimed (emitted (effects c1)) = map untimed (emitted (effects c2)).

(** The listeners of [ls] that belong to the environment [k]. *)
Definition owned (k : nat) (ls : list Listener) : list Listener :=
  filter (fun l => Nat.eqb (l_closure l) k) ls.

(** The environment [k] is attached to the element [t], and to no other. *)
Definition attached (k t : nat) (pg : Page) : Prop :=
  (t < List.length (elements pg))%nat /\
  forall t' el,
    nth_error (elements pg) t' = Some el ->
    owned k (listeners el) = if Nat.eqb t' t then four_listeners k else [].

(** The context an environment runs in. *)
Definition ctx_of (cl : Closure) (tk : nat) : Ctx :=
  {| vars := cl_vars cl; ticks := tk; effects := cl_effects cl |}.

(** The environment [cl] has the variables of the context [c] and has
    emitted the same snapshots, up to their clock readings. *)
Definition runs_as (cl : Closure) (c : Ctx) : Prop := alike (ctx_of cl 0) c.

(** An element without inline [touch-action] and without listeners. *)
Definition blank_element : Element :=
  {| touchAction := ""; listeners := [] |}.

(** A page of [n] elements without listeners, before any attachment. *)
Definition blank_page (n : nat) : Page :=
  {| elements := repeat blank_element n; closures := []; page_ticks := 0 |}.

(** All four handlers supplied. *)
Definition all_handlers : PinchPanGestureHandlers :=
  {| onStart := true; onMove := true; onEnd := true; onCancel := true |}.

(** [options = {}]. *)
Definition no_options : PinchPanGestureOptions :=
  {| opt_preventDefault := None; opt_capturePointers := None |}.

(** ** The hook [usePinchPanGesture]

    The second effect of [usePinchPanGesture(targetRef, handlers, options)],
    which React runs after mounting and whenever the target or one of the
    two options changes.  [target] is [targetRef.current], [None] when it is
    [null].  The four handlers the effect passes on are wrappers, always
    there, each of which calls the handler of the same name in
    [handlersRef.current] if there is one.  An effect returns its cleanup or
    nothing. *)
Definition usePinchPanGesture_effect (target : option nat)
    (options : option PinchPanGestureOptions) (pg : Page)
    : Completion (Page * option (Page -> Page)) :=
  match target with
  | None => Normal (pg, None)
  | Some el =>
      match
        attachPinchPanGesture (Some el) all_handlers
          (match options with Some o => o | None => no_options end) pg
      with
      | Normal (pg', d) => Normal (pg', Some d)
      | Throw err => Throw err
      end
  end.

(** What React does with the result of an effect when it tears the effect
    down: it calls the cleanup if the effect returned one. *)
Definition teardown (cleanup : option (Page -> Page)) (pg : Page) : Page :=
  match cleanup with
  | Some d => d pg
  | None => pg
  end.

(** ** Vocabulary of the further properties *)

(** Whether a point variable holds a point. *)
Definition is_point (v : option MutablePoint) : bool :=
  match v with Some _ => true | None => false end.

(** What the variables of a session satisfy between two notifications. *)
Record session_inv (st : State.t) : Prop := mkSessionInv {
  inv_active :
    (1 <= PointerMap.size (State.pointers st))%Z -> State.active st = true;
  inv_centers :
    is_point (State.gestureStartCenter st) =
      (1 <=? PointerMap.size (State.pointers st))%Z /\
    is_point (State.lastCenter st) =
      (1 <=? PointerMap.size (State.pointers st))%Z;
  inv_distance :
    is_number (State.gestureStartDistance st) =
      (2 <=? PointerMap.size (State.pointers st))%Z;
  inv_angle :
    is_number (State.gestureStartAngleRad st) =
      (2 <=? PointerMap.size (State.pointers st))%Z;
  inv_translation :
    State.translation st =
      match State.lastCenter st, State.gestureStartCenter st with
      | Some lc, Some g => {| x := x lc - x g; y := y lc - y g |}
      | _, _ => origin
      end
}.

(** The geometry [endLike] emits its end or cancel snapshot with: that of the
    remaining contacts, or some center alone when none remains. *)
Definition remaining_metrics (p : MutablePoint) (st : State.t) : Metrics.t :=
  match getActivePoints st with
  | [] => no_pinch p
  | _ :: _ => computeMetrics (getActivePoints st)
  end.

(** A start snapshot is neutral: no translation, no delta, scale 1, rotation
    0, and one or two contacts. *)
Definition neutral_start (s : Snapshot.t) : Prop :=
  Snapshot.phase s = start ->
  Snapshot.translation s = origin /\
  Snapshot.delta s = origin /\
  Snapshot.scale s = 1 /\
  Snapshot.rotationRad s = 0 /\
  (Snapshot.pointers s = 1 \/ Snapshot.pointers s = 2)%Z.

(** The contact count of a snapshot is 0, 1 or 2; the pairwise distance is
    there exactly when it is 2; a start or a move has at least one contact. *)
Definition counted (s : Snapshot.t) : Prop :=
  (0 <= Snapshot.pointers s <= 2)%Z /\
  is_number (Snapshot.pinchDistance s) = (Snapshot.pointers s =? 2)%Z /\
  (Snapshot.phase s = start \/ Snapshot.phase s = move ->
   (1 <= Snapshot.pointers s)%Z).

(** From [c] to [c'] the clock was read once for each new snapshot, in
    order. *)
Definition clocked (now : nat -> R) (c c' : Ctx) : Prop :=
  exists new,
    emitted (effects c') = emitted (effects c) ++ new /\
    ticks c' = (ticks c + List.length new)%nat /\
    map Snapshot.timestamp new = map now (seq (ticks c) (List.length new)).

(** Whether a point variable holds a point. *)
(** Whether a notification is a contact-begin. *)
Definition is_pointerdown (n : Notification) : bool :=
  match n with pointerdown _ => true | _ => false end.

(** An effect the options allow: [preventDefault()] only when the option
    [preventDefault] is on, [setPointerCapture()] only when [capturePointers]
    is on. *)
Definition allowed (pd cp : bool) (eff : Effect) : Prop :=
  match eff with
  | PreventDefault _ => pd = true
  | SetPointerCapture _ => cp = true
  | Emit _ => True
  end.

(** * Properties *)

(** ** Numbers and geometry *)

Lemma hypot_nonneg (dx dy : R) : 0 <= JsMath.hypot dx dy.
Proof. unfold JsMath.hypot. apply sqrt_pos. Qed.

Lemma hypot_square (dx dy : R) :
  JsMath.hypot dx dy * JsMath.hypot dx dy = dx * dx + dy * dy.
Proof. unfold JsMath.hypot. apply sqrt_def. nra. Qed.

Lemma hypot_axis (d : R) : 0 <= d -> JsMath.hypot d 0 = d.
Proof.
  intros Hd. unfold JsMath.hypot.
  replace (d * d + 0 * 0) with (d * d) by ring.
  now apply sqrt_square.
Qed.

Lemma hypot_zero_iff (dx dy : R) :
  JsMath.hypot dx dy = 0 <-> dx = 0 /\ dy = 0.
Proof.
  split.
  - intros H. pose proof (hypot_square dx dy) as Hs. rewrite H in Hs.
    split; nra.
  - intros [-> ->]. unfold JsMath.hypot.
    replace (0 * 0 + 0 * 0) with 0 by ring. apply sqrt_0.
Qed.

(** The norm of [(dx, dy)] when [dx] is not zero, factored through the slope
    [dy / dx]. *)
Lemma hypot_slope (dx dy : R) :
  dx <> 0 ->
  JsMath.hypot dx dy = Rabs dx * sqrt (1 + (dy / dx)²).
Proof.
  intros Hx. unfold JsMath.hypot.
  rewrite <- sqrt_Rsqr_abs, <- sqrt_mult_alt by apply Rle_0_sqr.
  f_equal. unfold Rsqr. field. exact Hx.
Qed.

Lemma slope_norm_pos (t : R) : 0 < sqrt (1 + t²).
Proof. apply sqrt_lt_R0. pose proof (Rle_0_sqr t). lra. Qed.

Lemma atan2_range (dy dx : R) : - PI < JsMath.atan2 dy dx <= PI.
Proof.
  unfold JsMath.atan2. pose proof PI_RGT_0 as Hpi.
  destruct (Rlt_dec 0 dx) as [Hpos | Hnpos].
  - pose proof (atan_bound (dy / dx)). lra.
  - destruct (Rlt_dec dx 0) as [Hneg | Hnneg].
    + destruct (Rle_dec 0 dy) as [Hy | Hy].
      * assert (dy / dx <= 0) as Ht.
        { unfold Rdiv. assert (/ dx < 0) by now apply Rinv_lt_0_compat. nra. }
        pose proof (atan_bound (dy / dx)).
        assert (atan (dy / dx) <= 0).
        { destruct Ht as [Ht | Ht].
          - apply Rlt_le. rewrite <- atan_0. now apply atan_increasing.
          - rewrite Ht, atan_0. lra. }
        lra.
      * assert (0 < dy / dx) as Ht.
        { unfold Rdiv. assert (/ dx < 0) by now apply Rinv_lt_0_compat. nra. }
        pose proof (atan_bound (dy / dx)).
        assert (0 < atan (dy / dx)).
        { rewrite <- atan_0. now apply atan_increasing. }
        lra.
    + destruct (Rlt_dec 0 dy); [lra |].
      destruct (Rlt_dec dy 0); lra.
Qed.

(** [atan2] and [hypot] are the polar coordinates of the vector. *)
Lemma atan2_polar (dy dx : R) :
  dx = JsMath.hypot dx dy * cos (JsMath.atan2 dy dx) /\
  dy = JsMath.hypot dx dy * sin (JsMath.atan2 dy dx).
Proof.
  unfold JsMath.atan2.
  destruct (Rlt_dec 0 dx) as [Hpos | Hnpos].
  - rewrite hypot_slope by lra. rewrite Rabs_right by lra.
    rewrite cos_atan, sin_atan.
    pose proof (slope_norm_pos (dy / dx)).
    split; field; lra.
  - destruct (Rlt_dec dx 0) as [Hneg | Hnneg].
    + rewrite hypot_slope by lra. rewrite Rabs_left by lra.
      pose proof (slope_norm_pos (dy / dx)).
      destruct (Rle_dec 0 dy).
      * rewrite neg_cos, neg_sin, cos_atan, sin_atan. split; field; lra.
      * unfold Rminus. rewrite cos_plus, sin_plus, cos_neg, sin_neg.
        rewrite cos_PI, sin_PI, cos_atan, sin_atan. split; field; lra.
    + assert (dx = 0) as -> by lra.
      unfold JsMath.hypot. replace (0 * 0 + dy * dy) with (dy * dy) by ring.
      destruct (Rlt_dec 0 dy) as [Hy | Hy].
      * rewrite sqrt_square by lra. rewrite cos_PI2, sin_PI2. lra.
      * destruct (Rlt_dec dy 0) as [Hy' | Hy'].
        -- replace (dy * dy) with ((- dy) * (- dy)) by ring.
           rewrite sqrt_square by lra.
           rewrite cos_neg, sin_neg, cos_PI2, sin_PI2. lra.
        -- assert (dy = 0) as -> by lra.
           replace (0 * 0) with 0 by ring. rewrite sqrt_0. lra.
Qed.

Lemma atan2_east (d : R) : 0 < d -> JsMath.atan2 0 d = 0.
Proof.
  intros Hd. unfold JsMath.atan2.
  destruct (Rlt_dec 0 d) as [_ | H]; [| lra].
  unfold Rdiv. rewrite Rmult_0_l. apply atan_0.
Qed.

Lemma atan2_south (d : R) : 0 < d -> JsMath.atan2 d 0 = PI / 2.
Proof.
  intros Hd. unfold JsMath.atan2.
  destruct (Rlt_dec 0 0) as [H | _]; [lra |].
  destruct (Rlt_dec 0 d) as [_ | H]; [reflexivity | lra].
Qed.

Lemma atan2_west (d : R) : d < 0 -> JsMath.atan2 0 d = PI.
Proof.
  intros Hd. unfold JsMath.atan2.
  destruct (Rlt_dec 0 d) as [H | _]; [lra |].
  destruct (Rlt_dec d 0) as [_ | H]; [| lra].
  destruct (Rle_dec 0 0) as [_ | H]; [| lra].
  unfold Rdiv. rewrite Rmult_0_l, atan_0. lra.
Qed.

Lemma point_eta (p : MutablePoint) : {| x := x p; y := y p |} = p.
Proof. now destruct p. Qed.

(** C1.  The geometry of zero, one and two contact points: no point gives
    the center (0,0) and neither distance nor angle; one point gives that
    point as center and neither distance nor angle; two points [a], [b] give
    the midpoint as center, the Euclidean norm of [b - a] as distance, which
    is [Math.hypot], and the bearing of [b] from [a] as angle, which is
    [Math.atan2] and lies in (-PI, PI].  [computeMetrics] is a total function
    of its argument alone. *)
Theorem computeMetrics_geometry :
  computeMetrics [] =
    {| Metrics.center := {| x := 0; y := 0 |};
       Metrics.distance := None; Metrics.angleRad := None |} /\
  (forall p,
     computeMetrics [p] =
       {| Metrics.center := p;
          Metrics.distance := None; Metrics.angleRad := None |}) /\
  (forall a b,
     let d := JsMath.hypot (x b - x a) (y b - y a) in
     let t := JsMath.atan2 (y b - y a) (x b - x a) in
     computeMetrics [a; b] =
       {| Metrics.center := GeometrySpec.midpoint a b;
          Metrics.distance := Some d; Metrics.angleRad := Some t |} /\
     GeometrySpec.is_norm a b d /\
     GeometrySpec.is_bearing a b d t).
Proof.
  split; [reflexivity |]. split.
  - intros p. cbn [computeMetrics]. now rewrite point_eta.
  - intros a b d t. split; [reflexivity |]. split.
    + split; [apply hypot_nonneg | apply hypot_square].
    + split; [apply atan2_range | apply atan2_polar].
Qed.

(** ** The recognizer *)

(** ** Effects and emissions *)

Lemma emitted_app (a b : list Effect) :
  emitted (a ++ b) = emitted a ++ emitted b.
Proof.
  induction a as [| eff a IH]; [reflexivity |].
  destruct eff; cbn [app emitted]; now rewrite IH.
Qed.

Lemma last_snoc_some {A : Type} (l : list A) (a : A) :
  last (map Some (l ++ [a])) None = Some a.
Proof. rewrite map_app. cbn [map]. apply last_last. Qed.

Lemma emit_vars_pointers now ph m c :
  State.pointers (vars (emit now ph m c)) = State.pointers (vars c).
Proof. reflexivity. Qed.

Lemma emit_vars_active now ph m c :
  State.active (vars (emit now ph m c)) = State.active (vars c).
Proof. reflexivity. Qed.

Lemma emit_ticks now ph m c : ticks (emit now ph m c) = S (ticks c).
Proof. reflexivity. Qed.

(** [emit] appends exactly one effect, the snapshot. *)
Lemma emit_appends now ph m c :
  exists s,
    effects (emit now ph m c) = effects c ++ [Emit s] /\
    Snapshot.phase s = ph /\
    Snapshot.pinchDistance s = Metrics.distance m /\
    Snapshot.center s = Metrics.center m /\
    Snapshot.timestamp s = now (ticks c).
Proof.
  eexists. split; [reflexivity |]. cbn. repeat split. apply point_eta.
Qed.

(** Without a current distance the snapshot has scale 1 and rotation 0. *)
Lemma emit_without_pinch now ph m c :
  Metrics.distance m = None ->
  exists s,
    effects (emit now ph m c) = effects c ++ [Emit s] /\
    Snapshot.scale s = 1 /\ Snapshot.rotationRad s = 0.
Proof.
  intros Hd. eexists. split; [reflexivity |]. cbn. rewrite Hd. cbn.
  split.
  - now destruct (State.gestureStartDistance (vars c)).
  - destruct (State.gestureStartAngleRad (vars c)); [| reflexivity].
    now destruct (Metrics.angleRad m).
Qed.

Lemma computeMetrics_short (pts : list MutablePoint) :
  (List.length pts <= 1)%nat -> Metrics.distance (computeMetrics pts) = None.
Proof.
  destruct pts as [| p [| q pts]]; cbn; intros H; try reflexivity. lia.
Qed.

Lemma size_values (m : PointerMap.t) :
  List.length (PointerMap.values m) = List.length m.
Proof. unfold PointerMap.values. apply length_map. Qed.

Lemma emitted_perform_other (eff : Effect) (c : Ctx) :
  (forall s, eff <> Emit s) ->
  emitted (effects (perform eff c)) = emitted (effects c).
Proof.
  intros H. cbn [perform effects]. rewrite emitted_app.
  destruct eff; cbn [emitted]; try apply app_nil_r.
  now destruct (H s).
Qed.

Lemma quiet_emit now ph m c :
  Metrics.distance m = None ->
  Forall quiet (emitted (effects c)) ->
  Forall quiet (emitted (effects (emit now ph m c))).
Proof.
  intros Hd HP. destruct (emit_without_pinch now ph m c Hd) as (s & -> & Hs).
  rewrite emitted_app. apply Forall_app. split; [exact HP |].
  cbn [emitted]. constructor; [exact Hs | constructor].
Qed.

Lemma few_points_no_distance (st : State.t) :
  (PointerMap.size (State.pointers st) <= 1)%Z ->
  Metrics.distance (computeMetrics (getActivePoints st)) = None.
Proof.
  intros H. apply computeMetrics_short. unfold getActivePoints.
  rewrite size_values. unfold PointerMap.size in H. lia.
Qed.

Lemma quiet_onPointerDown now pd cp e c :
  (PointerMap.size
     (State.pointers (vars (onPointerDown now pd cp e c))) <= 1)%Z ->
  Forall quiet (emitted (effects c)) ->
  Forall quiet (emitted (effects (onPointerDown now pd cp e c))).
Proof.
  unfold onPointerDown.
  set (c1 := if pd then perform (PreventDefault e) c else c).
  set (c2 := if tracked_type (pointerType e) then _ else c1).
  set (c3 := if cp then _ else c2).
  set (c4 := if negb (State.active (vars c3)) then _ else c3).
  intros Hsize HP.
  assert (Forall quiet (emitted (effects c4))) as HP4.
  { subst c4 c3 c2 c1.
    destruct pd, (tracked_type (pointerType e)), cp;
      destruct (negb _); cbn [with_vars effects];
      rewrite ?emitted_perform_other by discriminate;
      cbn [with_vars effects];
      rewrite ?emitted_perform_other by discriminate; exact HP. }
  assert (State.pointers (vars c4) = State.pointers (vars c3)) as Hp43.
  { subst c4. now destruct (negb _). }
  destruct (size_is_1_or_2 (vars c4)); [| exact HP4].
  apply quiet_emit; [| exact HP4].
  apply few_points_no_distance. rewrite <- Hp43.
  rewrite emit_vars_pointers in Hsize. exact Hsize.
Qed.

Lemma quiet_onPointerMove now pd e c :
  (PointerMap.size
     (State.pointers (vars (onPointerMove now pd e c))) <= 1)%Z ->
  Forall quiet (emitted (effects c)) ->
  Forall quiet (emitted (effects (onPointerMove now pd e c))).
Proof.
  unfold onPointerMove.
  destruct (negb (PointerMap.has _ _)); [auto |].
  set (c1 := if pd then perform (PreventDefault e) c else c).
  assert (Forall quiet (emitted (effects c1)) <->
          Forall quiet (emitted (effects c))) as HP1.
  { subst c1. destruct pd; [| reflexivity].
    now rewrite emitted_perform_other by discriminate. }
  destruct (PointerMap.get _ _); [| intros _; apply HP1].
  set (c2 := with_vars _ c1).
  intros Hsize HP. apply HP1 in HP.
  destruct (negb (State.active (vars c2))); [exact HP |].
  destruct (size_is_1_or_2 (vars c2)); [| exact HP].
  apply quiet_emit; [| exact HP].
  apply few_points_no_distance. exact Hsize.
Qed.

Lemma quiet_endLike now pd ph e c :
  (PointerMap.size
     (State.pointers (vars (endLike now pd ph e c))) <= 1)%Z ->
  Forall quiet (emitted (effects c)) ->
  Forall quiet (emitted (effects (endLike now pd ph e c))).
Proof.
  unfold endLike.
  destruct (negb (PointerMap.has _ _)); [auto |].
  set (c1 := if pd then perform (PreventDefault e) c else c).
  set (c2 := with_vars _ c1).
  set (m := match getActivePoints (vars c2) with [] => _ | _ :: _ => _ end).
  intros Hsize HP.
  assert (Forall quiet (emitted (effects c2))) as HP2.
  { subst c2 c1. destruct pd; cbn [with_vars effects]; [| exact HP].
    now rewrite emitted_perform_other by discriminate. }
  assert (PointerMap.size (State.pointers (vars c2)) <= 1)%Z as Hsize2.
  { destruct (size_is_1_or_2 (vars (emit now ph m c2)));
      [exact Hsize |].
    destruct (_ =? 0)%Z; exact Hsize. }
  assert (Metrics.distance m = None) as Hm.
  { subst m. pose proof (few_points_no_distance _ Hsize2) as H.
    destruct (getActivePoints (vars c2)); [reflexivity | exact H]. }
  pose proof (quiet_emit now ph m c2 Hm HP2) as HP3.
  destruct (size_is_1_or_2 (vars (emit now ph m c2))).
  - apply quiet_emit; [| exact HP3].
    now apply few_points_no_distance.
  - destruct (_ =? 0)%Z; exact HP3.
Qed.

Lemma quiet_handle now pd cp n c :
  (PointerMap.size (State.pointers (vars (handle now pd cp n c))) <= 1)%Z ->
  Forall quiet (emitted (effects c)) ->
  Forall quiet (emitted (effects (handle now pd cp n c))).
Proof.
  destruct n; cbn [handle].
  - apply quiet_onPointerDown.
  - apply quiet_onPointerMove.
  - apply quiet_endLike.
  - apply quiet_endLike.
Qed.

Lemma quiet_feed now pd cp ns : forall c,
  at_most_one_live now pd cp ns c ->
  Forall quiet (emitted (effects c)) ->
  Forall quiet (emitted (effects (feed now pd cp ns c))).
Proof.
  induction ns as [| n ns IH]; intros c Hlive HP; [exact HP |].
  cbn [feed]. destruct Hlive as [_ Hlive]. apply IH; [exact Hlive |].
  apply quiet_handle; [| exact HP].
  destruct ns; apply Hlive.
Qed.

(** C2.  For every notification sequence in which at most one contact is
    live at any point in time (before and after every notification), every
    snapshot the recognizer emits has scale 1 and rotation 0. *)
Theorem single_contact_is_pan_only now pd cp ns :
  at_most_one_live now pd cp ns fresh ->
  forall s,
    In s (emitted (effects (feed now pd cp ns fresh))) ->
    Snapshot.scale s = 1 /\ Snapshot.rotationRad s = 0.
Proof.
  intros Hlive. apply Forall_forall.
  apply (quiet_feed now pd cp ns fresh Hlive). constructor.
Qed.

Lemma single_contact_is_pan_only_witness :
  let ns := [ pointerdown (contact 1 "touch"%string 10 10);
              pointermove (contact 1 "touch"%string 30 10);
              pointerup (contact 1 "touch"%string 30 10);
              pointerdown (contact 2 "pen"%string 5 5);
              pointercancel (contact 2 "pen"%string 5 5) ] in
  at_most_one_live steady_clock true true ns fresh /\
  List.length (emitted (effects (feed steady_clock true true ns fresh))) = 5%nat /\
  forall s,
    In s (emitted (effects (feed steady_clock true true ns fresh))) ->
    Snapshot.scale s = 1 /\ Snapshot.rotationRad s = 0.
Proof.
  intros ns.
  assert (at_most_one_live steady_clock true true ns fresh) as Hlive.
  { cbn. repeat split; lia. }
  split; [exact Hlive |]. split; [reflexivity |].
  exact (single_contact_is_pan_only steady_clock true true ns Hlive).
Defined.

(** ** The contact registry *)

Lemma has_get (id : Z) (m : PointerMap.t) :
  PointerMap.has id m = true -> exists p, PointerMap.get id m = Some p.
Proof.
  induction m as [| [k v] m IH]; cbn; [discriminate |].
  destruct (k =? id)%Z; [now eexists | exact IH].
Qed.

Lemma get_set_same (id : Z) (v : MutablePoint) (m : PointerMap.t) :
  PointerMap.get id (PointerMap.set id v m) = Some v.
Proof.
  induction m as [| [k w] m IH]; cbn.
  - now rewrite Z.eqb_refl.
  - destruct (k =? id)%Z eqn:E; cbn; now rewrite E.
Qed.

Lemma get_set_other (id id' : Z) (v : MutablePoint) (m : PointerMap.t) :
  id' <> id ->
  PointerMap.get id' (PointerMap.set id v m) = PointerMap.get id' m.
Proof.
  intros Hne. induction m as [| [k w] m IH]; cbn.
  - destruct (id =? id')%Z eqn:E; [| reflexivity].
    apply Z.eqb_eq in E. congruence.
  - destruct (k =? id)%Z eqn:E; cbn.
    + apply Z.eqb_eq in E. subst k.
      destruct (id =? id')%Z eqn:E'; [| reflexivity].
      apply Z.eqb_eq in E'. congruence.
    + now rewrite IH.
Qed.

Lemma keys_set_present (id : Z) (v : MutablePoint) (m : PointerMap.t) :
  PointerMap.has id m = true ->
  PointerMap.keys (PointerMap.set id v m) = PointerMap.keys m.
Proof.
  induction m as [| [k w] m IH]; cbn; [discriminate |].
  destruct (k =? id)%Z; cbn; [reflexivity |].
  intros H. f_equal. now apply IH.
Qed.

Lemma size_keys (m : PointerMap.t) :
  PointerMap.size m = Z.of_nat (List.length (PointerMap.keys m)).
Proof. unfold PointerMap.size, PointerMap.keys. now rewrite length_map. Qed.

Lemma size_set_present (id : Z) (v : MutablePoint) (m : PointerMap.t) :
  PointerMap.has id m = true ->
  PointerMap.size (PointerMap.set id v m) = PointerMap.size m.
Proof. intros H. rewrite !size_keys. now rewrite keys_set_present. Qed.

Lemma has_set_absent_size (id : Z) (v : MutablePoint) (m : PointerMap.t) :
  PointerMap.has id m = false ->
  PointerMap.size (PointerMap.set id v m) = (PointerMap.size m + 1)%Z.
Proof.
  unfold PointerMap.size.
  induction m as [| [k w] m IH]; cbn [PointerMap.has PointerMap.set].
  - reflexivity.
  - destruct (k =? id)%Z; [discriminate |]. intros H.
    cbn [List.length]. specialize (IH H). lia.
Qed.

Lemma has_set_absent_keys (id : Z) (v : MutablePoint) (m : PointerMap.t) :
  PointerMap.has id m = false ->
  PointerMap.keys (PointerMap.set id v m) = PointerMap.keys m ++ [id].
Proof.
  induction m as [| [k w] m IH]; cbn; [reflexivity |].
  destruct (k =? id)%Z; [discriminate |]. intros H. cbn. f_equal. now apply IH.
Qed.

(** C10.  While more than two contacts are live, a move of any tracked
    contact, one of the first two included, stores the new position of that
    contact, leaves the other contacts, the order of the registry and all the
    other variables as they are, and emits no snapshot. *)
Theorem move_with_extra_contacts now pd e c :
  PointerMap.has (pointerId e) (State.pointers (vars c)) = true ->
  (2 < PointerMap.size (State.pointers (vars c)))%Z ->
  let c' := onPointerMove now pd e c in
  PointerMap.get (pointerId e) (State.pointers (vars c')) =
    Some {| x := clientX e; y := clientY e |} /\
  (forall id, id <> pointerId e ->
     PointerMap.get id (State.pointers (vars c')) =
     PointerMap.get id (State.pointers (vars c))) /\
  PointerMap.keys (State.pointers (vars c')) =
    PointerMap.keys (State.pointers (vars c)) /\
  vars c' =
    set_pointers
      (PointerMap.set (pointerId e) {| x := clientX e; y := clientY e |}
         (State.pointers (vars c))) (vars c) /\
  emitted (effects c') = emitted (effects c) /\
  ticks c' = ticks c.
Proof.
  intros Hhas Hsize c'.
  assert (c' =
          with_vars
            (fun st =>
               set_pointers
                 (PointerMap.set (pointerId e)
                    {| x := clientX e; y := clientY e |}
                    (State.pointers st)) st)
            (if pd then perform (PreventDefault e) c else c)) as Hc'.
  { subst c'. unfold onPointerMove. rewrite Hhas. cbn [negb].
    destruct (has_get _ _ Hhas) as [p Hp].
    assert (PointerMap.get (pointerId e)
              (State.pointers
                 (vars (if pd then perform (PreventDefault e) c else c))) =
            Some p) as -> by now destruct pd.
    set (c2 := with_vars _ _).
    assert (size_is_1_or_2 (vars c2) = false) as ->.
    { unfold size_is_1_or_2. subst c2. cbn [with_vars vars set_pointers
        State.pointers].
      assert (State.pointers
                (vars (if pd then perform (PreventDefault e) c else c)) =
              State.pointers (vars c)) as -> by now destruct pd.
      rewrite size_set_present by exact Hhas.
      apply orb_false_iff. split; apply Z.eqb_neq; lia. }
    now destruct (negb _). }
  rewrite Hc'. destruct pd; cbn [with_vars perform vars effects ticks
    set_pointers State.pointers];
    rewrite ?emitted_app, ?app_nil_r;
    (repeat split;
     [ apply get_set_same
     | intros id Hid; now apply get_set_other
     | now apply keys_set_present ]).
Qed.

Lemma move_with_extra_contacts_witness :
  let c :=
    feed steady_clock true true
      [ pointerdown (contact 1 "touch" 0 0);
        pointerdown (contact 2 "touch" 100 0);
        pointerdown (contact 3 "touch" 50 80) ] fresh in
  let e := contact 1 "touch" 7 9 in
  PointerMap.has (pointerId e) (State.pointers (vars c)) = true /\
  (2 < PointerMap.size (State.pointers (vars c)))%Z /\
  PointerMap.get 1 (State.pointers (vars (onPointerMove steady_clock true e c)))
    = Some {| x := 7; y := 9 |} /\
  emitted (effects (onPointerMove steady_clock true e c)) =
    emitted (effects c).
Proof.
  intros c e.
  assert (PointerMap.has (pointerId e) (State.pointers (vars c)) = true)
    as Hhas by reflexivity.
  assert (2 < PointerMap.size (State.pointers (vars c)))%Z
    as Hsize by (cbn; lia).
  destruct (move_with_extra_contacts steady_clock true e c Hhas Hsize)
    as (Hget & _ & _ & _ & Hemit & _).
  repeat split; assumption.
Defined.

Lemma emitted_prevent (pd : bool) (e : PointerEvent) (c : Ctx) :
  emitted (effects (if pd then perform (PreventDefault e) c else c)) =
  emitted (effects c).
Proof.
  destruct pd; [| reflexivity]. now apply emitted_perform_other.
Qed.

Lemma vars_prevent (pd : bool) (e : PointerEvent) (c : Ctx) :
  vars (if pd then perform (PreventDefault e) c else c) = vars c.
Proof. now destruct pd. Qed.

(** A session anchored to the geometry of [pts] and then emitting with it:
    the snapshot has no translation and no delta, and the anchors are those
    of the geometry. *)
Lemma emit_after_rebase now ph pts c :
  let m := computeMetrics pts in
  let c' := emit now ph m (with_vars (rebase m) c) in
  exists s,
    effects c' = effects c ++ [Emit s] /\
    Snapshot.phase s = ph /\
    Snapshot.center s = Metrics.center m /\
    Snapshot.translation s = origin /\
    Snapshot.delta s = origin /\
    State.pointers (vars c') = State.pointers (vars c) /\
    State.active (vars c') = State.active (vars c) /\
    State.gestureStartCenter (vars c') = Some (Metrics.center m) /\
    State.gestureStartDistance (vars c') = Metrics.distance m /\
    State.gestureStartAngleRad (vars c') = Metrics.angleRad m /\
    State.lastCenter (vars c') = Some (Metrics.center m) /\
    State.translation (vars c') = origin.
Proof.
  eexists. split; [reflexivity |].
  unfold origin, toReadonlyPoint.
  destruct pts as [| a [| b pts]]; cbn; repeat split; f_equal; lra.
Qed.

(** C4.  When a tracked contact ends or cancels and one or two contacts
    remain live, the handler emits the end (or cancel) snapshot and then a
    start snapshot, the last one of the notification, whose translation and
    delta are (0,0); the session is left anchored to the geometry of the
    remaining contacts. *)
Theorem release_rebases now pd ph e c :
  PointerMap.has (pointerId e) (State.pointers (vars c)) = true ->
  let rest := PointerMap.delete (pointerId e) (State.pointers (vars c)) in
  (PointerMap.size rest = 1 \/ PointerMap.size rest = 2)%Z ->
  let m := computeMetrics (PointerMap.values rest) in
  let c' := endLike now pd ph e c in
  exists s_end s_start,
    emitted (effects c') = emitted (effects c) ++ [s_end; s_start] /\
    Snapshot.phase s_end = ph /\
    Snapshot.phase s_start = start /\
    Snapshot.center s_start = Metrics.center m /\
    Snapshot.translation s_start = origin /\
    Snapshot.delta s_start = origin /\
    State.pointers (vars c') = rest /\
    State.gestureStartCenter (vars c') = Some (Metrics.center m) /\
    State.gestureStartDistance (vars c') = Metrics.distance m /\
    State.gestureStartAngleRad (vars c') = Metrics.angleRad m /\
    State.lastCenter (vars c') = Some (Metrics.center m) /\
    State.translation (vars c') = origin.
Proof.
  intros Hhas rest Hsize m c'. subst c'. unfold endLike.
  rewrite Hhas. cbn [negb].
  set (c1 := if pd then perform (PreventDefault e) c else c).
  set (c2 := with_vars _ c1).
  assert (State.pointers (vars c2) = rest) as Hp2.
  { subst c2 c1 rest. cbn [with_vars vars set_pointers State.pointers].
    now rewrite vars_prevent. }
  assert (emitted (effects c2) = emitted (effects c)) as He2.
  { subst c2 c1. cbn [with_vars effects]. apply emitted_prevent. }
  set (m0 := match getActivePoints (vars c2) with [] => _ | _ :: _ => _ end).
  assert (size_is_1_or_2 (vars (emit now ph m0 c2)) = true) as ->.
  { unfold size_is_1_or_2. rewrite emit_vars_pointers, Hp2.
    apply orb_true_iff. destruct Hsize as [-> | ->]; auto. }
  assert (getActivePoints (vars (emit now ph m0 c2)) = PointerMap.values rest)
    as ->.
  { unfold getActivePoints. now rewrite emit_vars_pointers, Hp2. }
  subst m.
  destruct (emit_appends now ph m0 c2) as (s_end & Heff & Hph & _).
  destruct (emit_after_rebase now start (PointerMap.values rest)
              (emit now ph m0 c2))
    as (s_start & Heff' & Hstart & Hcenter & Htr & Hdelta & Hptr & _ & Hrest).
  exists s_end, s_start. split.
  { rewrite Heff', Heff, !emitted_app, He2. cbn [emitted app].
    now rewrite <- app_assoc. }
  rewrite Hptr, emit_vars_pointers, Hp2. tauto.
Qed.

Lemma release_rebases_witness :
  let e2 := contact 2 "touch" 100 0 in
  let c :=
    feed steady_clock true true
      [pointerdown (contact 1 "touch" 0 0); pointerdown e2] fresh in
  exists s_end s_start,
    emitted (effects (endLike steady_clock true phase_end e2 c)) =
      emitted (effects c) ++ [s_end; s_start] /\
    Snapshot.phase s_start = start /\
    Snapshot.translation s_start = origin /\
    Snapshot.delta s_start = origin.
Proof.
  intros e2 c.
  destruct (release_rebases steady_clock true phase_end e2 c)
    as (s_end & s_start & H1 & _ & H3 & _ & H5 & H6 & _).
  - reflexivity.
  - left. reflexivity.
  - exists s_end, s_start. repeat split; assumption.
Defined.

(** ** Anchors are never negative *)

Lemma metrics_ok_computeMetrics (pts : list MutablePoint) :
  metrics_ok (computeMetrics pts).
Proof.
  intros d. destruct pts as [| a [| b pts]]; cbn; try discriminate.
  intros [= <-]. apply hypot_nonneg.
Qed.

Lemma metrics_ok_no_pinch (p : MutablePoint) : metrics_ok (no_pinch p).
Proof. intros d. cbn. discriminate. Qed.

Lemma anchor_ok_emit now ph m c :
  anchor_ok (vars c) -> metrics_ok m -> anchor_ok (vars (emit now ph m c)).
Proof.
  intros Hc Hm d0. cbn.
  destruct (State.gestureStartDistance (vars c)) as [d |] eqn:E.
  - intros [= <-]. now apply Hc.
  - destruct (Metrics.distance m) as [d |] eqn:Ed; cbn; [| discriminate].
    intros [= <-]. now apply Hm.
Qed.

Lemma anchor_ok_rebase m st : metrics_ok m -> anchor_ok (rebase m st).
Proof. intros Hm d0. cbn. apply Hm. Qed.

Lemma anchor_ok_reset st : anchor_ok (resetGestureState st).
Proof. intros d0. cbn. discriminate. Qed.

Lemma anchor_ok_onPointerDown now pd cp e c :
  anchor_ok (vars c) -> anchor_ok (vars (onPointerDown now pd cp e c)).
Proof.
  intros Hc. unfold onPointerDown.
  set (c1 := if pd then perform (PreventDefault e) c else c).
  set (c2 := if tracked_type (pointerType e) then _ else c1).
  set (c3 := if cp then _ else c2).
  set (c4 := if negb (State.active (vars c3)) then _ else c3).
  destruct (size_is_1_or_2 (vars c4)).
  - apply anchor_ok_emit; [| apply metrics_ok_computeMetrics].
    apply anchor_ok_rebase, metrics_ok_computeMetrics.
  - subst c4. destruct (negb _); [apply anchor_ok_reset |].
    subst c3 c2 c1.
    destruct cp, (tracked_type (pointerType e)), pd; exact Hc.
Qed.

Lemma anchor_ok_onPointerMove now pd e c :
  anchor_ok (vars c) -> anchor_ok (vars (onPointerMove now pd e c)).
Proof.
  intros Hc. unfold onPointerMove.
  destruct (negb (PointerMap.has _ _)); [exact Hc |].
  set (c1 := if pd then perform (PreventDefault e) c else c).
  assert (anchor_ok (vars c1)) as H1 by (subst c1; now destruct pd).
  destruct (PointerMap.get _ _); [| exact H1].
  set (c2 := with_vars _ c1).
  assert (anchor_ok (vars c2)) as H2 by exact H1.
  destruct (negb _); [exact H2 |].
  destruct (size_is_1_or_2 _); [| exact H2].
  apply anchor_ok_emit; [exact H2 | apply metrics_ok_computeMetrics].
Qed.

Lemma anchor_ok_endLike now pd ph e c :
  anchor_ok (vars c) -> anchor_ok (vars (endLike now pd ph e c)).
Proof.
  intros Hc. unfold endLike.
  destruct (negb (PointerMap.has _ _)); [exact Hc |].
  set (c1 := if pd then perform (PreventDefault e) c else c).
  set (c2 := with_vars _ c1).
  assert (anchor_ok (vars c2)) as H2 by (subst c2 c1; now destruct pd).
  set (m := match getActivePoints (vars c2) with [] => _ | _ :: _ => _ end).
  assert (metrics_ok m) as Hm.
  { subst m. destruct (getActivePoints (vars c2)).
    - intros d. cbn. discriminate.
    - apply metrics_ok_computeMetrics. }
  pose proof (anchor_ok_emit now ph m c2 H2 Hm) as H3.
  destruct (size_is_1_or_2 _).
  - apply anchor_ok_emit; [| apply metrics_ok_computeMetrics].
    apply anchor_ok_rebase, metrics_ok_computeMetrics.
  - destruct (_ =? 0)%Z; [apply anchor_ok_reset | exact H3].
Qed.

Lemma anchor_ok_feed now pd cp ns : forall c,
  anchor_ok (vars c) -> anchor_ok (vars (feed now pd cp ns c)).
Proof.
  induction ns as [| n ns IH]; intros c Hc; [exact Hc |].
  cbn [feed]. apply IH. destruct n; cbn [handle].
  - now apply anchor_ok_onPointerDown.
  - now apply anchor_ok_onPointerMove.
  - now apply anchor_ok_endLike.
  - now apply anchor_ok_endLike.
Qed.

Lemma anchor_ok_initial : anchor_ok State.initial.
Proof. intros d0. cbn. discriminate. Qed.

(** ** Scale *)

Lemma gtb_pos (d : R) : 0 < d -> JsMath.gtb d 0 = true.
Proof. intros H. unfold JsMath.gtb. now destruct (Rlt_dec 0 d). Qed.

Lemma truthy_nonzero (d : R) : d <> 0 -> JsMath.truthy d = true.
Proof. intros H. unfold JsMath.truthy. now destruct (Req_dec_T d 0). Qed.

Lemma truthy_zero : JsMath.truthy 0 = false.
Proof. unfold JsMath.truthy. now destruct (Req_dec_T 0 0). Qed.

Lemma emit_scale now ph m c :
  anchor_ok (vars c) ->
  metrics_ok m ->
  exists s,
    effects (emit now ph m c) = effects c ++ [Emit s] /\
    Snapshot.pinchDistance s = Metrics.distance m /\
    Snapshot.scale s =
      scale_rule (State.gestureStartDistance (vars (emit now ph m c)))
        (Metrics.distance m).
Proof.
  intros Hc Hm. eexists. split; [reflexivity |]. split; [reflexivity |].
  pose proof (anchor_ok_emit now ph m c Hc Hm) as Hc'.
  unfold anchor_ok in Hc'. cbn in Hc' |- *.
  set (a := match State.gestureStartDistance (vars c) with
            | Some d => Some d
            | None => _
            end) in *.
  unfold scale_rule.
  destruct (Metrics.distance m) as [d |]; cbn.
  - destruct a as [d0 |]; [| reflexivity].
    destruct (Req_dec_T d0 0) as [-> | Hnz].
    + now rewrite truthy_zero.
    + rewrite truthy_nonzero by exact Hnz.
      specialize (Hc' d0 eq_refl).
      rewrite gtb_pos by lra. reflexivity.
  - now destruct a.
Qed.

Lemma hypot_east (a b : R) : 0 <= a - b -> JsMath.hypot (a - b) (0 - 0) = a - b.
Proof.
  intros H. replace (0 - 0) with 0 by lra. now apply hypot_axis.
Qed.

Lemma hypot_345 : JsMath.hypot (8 - 5) (9 - 5) = 5.
Proof.
  unfold JsMath.hypot.
  replace ((8 - 5) * (8 - 5) + (9 - 5) * (9 - 5)) with (5 * 5) by lra.
  apply sqrt_square. lra.
Qed.

Lemma hypot_same (a b : R) : JsMath.hypot (a - a) (b - b) = 0.
Proof. apply hypot_zero_iff. lra. Qed.

(** C3 (amended).  On every emission the scale is the current pairwise
    distance divided by the anchor distance of the session when the current
    distance is defined and the anchor distance is defined and nonzero, and 1
    otherwise.  Anchor distances and current distances are never negative,
    on every run.  With contacts anchored at (0,0) and (100,0), moving the
    second one to (200,0) gives a move snapshot with distance 200 and scale
    2; with two contacts beginning at one point the anchor distance is 0 and
    the scale stays 1. *)
Theorem scale_on_emit :
  (forall now ph m c,
     anchor_ok (vars c) ->
     metrics_ok m ->
     exists s,
       effects (emit now ph m c) = effects c ++ [Emit s] /\
       Snapshot.pinchDistance s = Metrics.distance m /\
       Snapshot.scale s =
         scale_rule (State.gestureStartDistance (vars (emit now ph m c)))
           (Metrics.distance m)) /\
  (forall now pd cp ns, anchor_ok (vars (feed now pd cp ns fresh))) /\
  (forall pts, metrics_ok (computeMetrics pts)) /\
  (forall p, metrics_ok (no_pinch p)) /\
  (forall now pd cp,
     exists s,
       last_emitted
         (feed now pd cp
            [ pointerdown (contact 1 "touch" 0 0);
              pointerdown (contact 2 "touch" 100 0);
              pointermove (contact 2 "touch" 200 0) ] fresh) = Some s /\
       Snapshot.phase s = move /\
       Snapshot.pinchDistance s = Some 200 /\
       Snapshot.scale s = 2) /\
  (forall now pd cp,
     exists s1 s2 s3,
       emitted
         (effects
            (feed now pd cp
               [ pointerdown (contact 1 "touch" 5 5);
                 pointerdown (contact 2 "touch" 5 5);
                 pointermove (contact 2 "touch" 8 9) ] fresh)) =
         [s1; s2; s3] /\
       Snapshot.pinchDistance s2 = Some 0 /\
       Snapshot.scale s2 = 1 /\
       Snapshot.pinchDistance s3 = Some 5 /\
       Snapshot.scale s3 = 1).
Proof.
  split; [exact emit_scale |].
  split; [intros; apply anchor_ok_feed, anchor_ok_initial |].
  split; [exact metrics_ok_computeMetrics |].
  split; [exact metrics_ok_no_pinch |].
  split.
  - intros now pd cp. eexists. split.
    + unfold last_emitted. destruct pd, cp; cbn; reflexivity.
    + cbn. rewrite !hypot_east by lra.
      rewrite truthy_nonzero, gtb_pos by lra. cbn.
      repeat split; [f_equal |]; lra.
  - intros now pd cp. do 3 eexists. split.
    + destruct pd, cp; cbn; reflexivity.
    + cbn. rewrite hypot_same, hypot_345, truthy_zero. cbn.
      repeat split.
Qed.

Lemma scale_on_emit_witness :
  let c :=
    feed steady_clock true true
      [ pointerdown (contact 1 "touch" 0 0);
        pointerdown (contact 2 "touch" 100 0) ] fresh in
  let m := computeMetrics [ {| x := 0; y := 0 |}; {| x := 200; y := 0 |} ] in
  anchor_ok (vars c) /\
  metrics_ok m /\
  exists s,
    effects (emit steady_clock move m c) = effects c ++ [Emit s] /\
    Snapshot.scale s = 2.
Proof.
  intros c m.
  destruct scale_on_emit as (Hemit & Hreach & Hmetrics & _).
  pose proof (Hreach steady_clock true true
                [ pointerdown (contact 1 "touch" 0 0);
                  pointerdown (contact 2 "touch" 100 0) ]) as Hc.
  pose proof (Hmetrics [ {| x := 0; y := 0 |}; {| x := 200; y := 0 |} ])
    as Hm.
  split; [exact Hc |]. split; [exact Hm |].
  destruct (Hemit steady_clock move m c Hc Hm) as (s & Heff & _ & Hscale).
  exists s. split; [exact Heff |].
  rewrite Hscale. cbn. rewrite !hypot_east by lra.
  destruct (Req_dec_T (100 - 0) 0); lra.
Defined.

(** C3 as worded fails: with contacts anchored at (0,0) and (100,0), lifting
    the second one emits an end snapshot while the anchor distance is 100,
    defined and nonzero; there is no current distance, and the scale is 1. *)
Lemma scale_as_worded_fails_on_release :
  let e2 := contact 2 "touch" 100 0 in
  let c :=
    feed steady_clock true true
      [pointerdown (contact 1 "touch" 0 0); pointerdown e2] fresh in
  let c_mid :=
    with_vars
      (fun st =>
         set_pointers (PointerMap.delete 2 (State.pointers st)) st)
      (perform (PreventDefault e2) c) in
  let m := computeMetrics (getActivePoints (vars c_mid)) in
  let c' := emit steady_clock phase_end m c_mid in
  onPointerUp steady_clock true e2 c =
    emit steady_clock start m (with_vars (rebase m) c') /\
  exists s,
    last_emitted c' = Some s /\
    Snapshot.phase s = phase_end /\
    State.gestureStartDistance (vars c') = Some 100 /\
    Metrics.distance m = None /\
    Snapshot.scale s = 1 /\
    ~ scale_as_worded (State.gestureStartDistance (vars c'))
        (Metrics.distance m) (Snapshot.scale s).
Proof.
  cbv zeta. split.
  { cbn. reflexivity. }
  eexists. split. { cbn. reflexivity. } cbn.
  rewrite hypot_east by lra. replace (100 - 0) with 100 by lra.
  repeat split.
  destruct (Req_dec_T 100 0) as [H | _]; [lra |].
  intros (d & Hd & _). discriminate.
Qed.

(** ** Rotation *)

Lemma atan2_third_diagonal (d : R) :
  d < 0 -> JsMath.atan2 d d = PI / 4 - PI.
Proof.
  intros Hd. unfold JsMath.atan2.
  destruct (Rlt_dec 0 d) as [H | _]; [lra |].
  destruct (Rlt_dec d 0) as [_ | H]; [| lra].
  destruct (Rle_dec 0 d) as [H | _]; [lra |].
  replace (d / d) with 1 by (field; lra). now rewrite atan_1.
Qed.

Lemma emit_rotation now ph pts c :
  let m := computeMetrics pts in
  exists s,
    effects (emit now ph m c) = effects c ++ [Emit s] /\
    Snapshot.rotationRad s =
      rotation_rule (State.gestureStartAngleRad (vars (emit now ph m c)))
        (Metrics.angleRad m) /\
    Snapshot.rotationRad s =
      rotation_rule (State.gestureStartAngleRad (vars c))
        (Metrics.angleRad m).
Proof.
  eexists. split; [reflexivity |].
  unfold rotation_rule.
  destruct pts as [| a [| b pts]]; cbn;
    destruct (State.gestureStartAngleRad (vars c)); split;
    try reflexivity; lra.
Qed.

Lemma emit_rotation_no_pinch now ph p c :
  exists s,
    effects (emit now ph (no_pinch p) c) = effects c ++ [Emit s] /\
    Snapshot.rotationRad s = 0.
Proof.
  eexists. split; [reflexivity |]. cbn.
  now destruct (State.gestureStartAngleRad (vars c)).
Qed.

(** C5.  On every emission the rotation is the current bearing minus the
    anchor angle of the session when both are defined, and 0 otherwise;
    nothing is normalised.  With the first contact fixed at (0,0) and the
    second one moved from (100,0) to (0,100) the rotation is PI/2; with the
    second one moved from (-100,0) to (-100,-100) the bearing crosses the
    boundary and the rotation is -7 PI/4, below -PI. *)
Theorem rotation_on_emit :
  (forall now ph pts c,
     let m := computeMetrics pts in
     exists s,
       effects (emit now ph m c) = effects c ++ [Emit s] /\
       Snapshot.rotationRad s =
         rotation_rule (State.gestureStartAngleRad (vars (emit now ph m c)))
           (Metrics.angleRad m) /\
       Snapshot.rotationRad s =
         rotation_rule (State.gestureStartAngleRad (vars c))
           (Metrics.angleRad m)) /\
  (forall now ph p c,
     exists s,
       effects (emit now ph (no_pinch p) c) = effects c ++ [Emit s] /\
       Snapshot.rotationRad s = 0) /\
  (forall now pd cp,
     exists s,
       last_emitted
         (feed now pd cp
            [ pointerdown (contact 1 "touch" 0 0);
              pointerdown (contact 2 "touch" 100 0);
              pointermove (contact 2 "touch" 0 100) ] fresh) = Some s /\
       Snapshot.phase s = move /\
       Snapshot.rotationRad s = PI / 2) /\
  (forall now pd cp,
     exists s,
       last_emitted
         (feed now pd cp
            [ pointerdown (contact 1 "touch" 0 0);
              pointerdown (contact 2 "touch" (-100) 0);
              pointermove (contact 2 "touch" (-100) (-100)) ] fresh)
         = Some s /\
       Snapshot.phase s = move /\
       Snapshot.rotationRad s = - (7 * PI / 4) /\
       Snapshot.rotationRad s < - PI).
Proof.
  split; [exact emit_rotation |].
  split; [exact emit_rotation_no_pinch |].
  split.
  - intros now pd cp. eexists. split.
    + unfold last_emitted. destruct pd, cp; cbn; reflexivity.
    + cbn. split; [reflexivity |].
      replace (0 - 0) with 0 by lra.
      rewrite atan2_south, atan2_east by lra. lra.
  - intros now pd cp. eexists. split.
    + unfold last_emitted. destruct pd, cp; cbn; reflexivity.
    + cbn. split; [reflexivity |].
      replace (0 - 0) with 0 by lra.
      rewrite atan2_west, atan2_third_diagonal by lra.
      pose proof PI_RGT_0. split; lra.
Qed.

(** ** Pointer types that are not tracked *)

Lemma untracked_keeps_registry now pd cp e c :
  tracked_type (pointerType e) = false ->
  State.pointers (vars (onPointerDown now pd cp e c)) =
  State.pointers (vars c).
Proof.
  intros Hty. unfold onPointerDown. rewrite Hty.
  set (c1 := if pd then perform (PreventDefault e) c else c).
  set (c3 := if cp then _ else c1).
  set (c4 := if negb (State.active (vars c3)) then _ else c3).
  assert (State.pointers (vars c4) = State.pointers (vars c)) as H4.
  { subst c4 c3 c1. destruct (negb _), cp, pd; reflexivity. }
  destruct (size_is_1_or_2 (vars c4)); [| exact H4].
  now rewrite emit_vars_pointers.
Qed.

(** C7.  What [onPointerDown] does with a pointer type outside the allow
    list.  With one touch contact down at (10,10) and moved to (30,10), a
    pointerdown of pointer type [""] at (50,50) leaves the registry as it
    is, but anchors the session anew, at (30,10), and emits one more start
    snapshot; on a recognizer that has seen nothing it sets [active]. *)
Theorem untracked_pointerdown_restarts :
  (let e := contact 2 "" 50 50 in
   let c :=
     feed steady_clock true true
       [ pointerdown (contact 1 "touch" 10 10);
         pointermove (contact 1 "touch" 30 10) ] fresh in
   let c' := onPointerDown steady_clock true true e c in
   tracked_type (pointerType e) = false /\
   State.pointers (vars c') = State.pointers (vars c) /\
   State.gestureStartCenter (vars c) = Some {| x := 10; y := 10 |} /\
   State.translation (vars c) = {| x := 30 - 10; y := 10 - 10 |} /\
   State.gestureStartCenter (vars c') = Some {| x := 30; y := 10 |} /\
   State.translation (vars c') = {| x := 30 - 30; y := 10 - 10 |} /\
   vars c' <> vars c /\
   exists s,
     emitted (effects c') = emitted (effects c) ++ [s] /\
     Snapshot.phase s = start /\
     Snapshot.pointers s = 1%Z /\
     Snapshot.center s = {| x := 30; y := 10 |}) /\
  (let e := contact 2 "" 50 50 in
   let c' := onPointerDown steady_clock true true e fresh in
   State.active (vars fresh) = false /\
   State.active (vars c') = true /\
   emitted (effects c') = []).
Proof.
  split.
  - cbn. repeat split.
    + intros H. injection H as H _. lra.
    + eexists. repeat split.
  - cbn. repeat split.
Qed.

(** ** The page *)

(** ** Lists updated in place *)

Lemma length_replace_nth {A : Type} (k : nat) (v : A) (l : list A) :
  List.length (replace_nth k v l) = List.length l.
Proof.
  revert k. induction l as [| a l IH]; intros [| k]; cbn; auto.
Qed.

Lemma nth_error_replace_nth_same {A : Type} (k : nat) (v : A) (l : list A) :
  (k < List.length l)%nat -> nth_error (replace_nth k v l) k = Some v.
Proof.
  revert k. induction l as [| a l IH]; intros [| k]; cbn; intros H;
    try lia; [reflexivity |].
  apply IH. lia.
Qed.

Lemma nth_error_replace_nth_other {A : Type} (k j : nat) (v : A)
    (l : list A) :
  j <> k -> nth_error (replace_nth k v l) j = nth_error l j.
Proof.
  revert k j. induction l as [| a l IH]; intros [| k] [| j] H; cbn;
    try reflexivity; try congruence.
  apply IH. congruence.
Qed.

Lemma replace_nth_id {A : Type} (k : nat) (v : A) (l : list A) :
  nth_error l k = Some v -> replace_nth k v l = l.
Proof.
  revert k. induction l as [| a l IH]; intros [| k]; cbn; try discriminate.
  - now intros [= ->].
  - intros H. f_equal. now apply IH.
Qed.

Lemma replace_nth_twice {A : Type} (k : nat) (v w : A) (l : list A) :
  replace_nth k w (replace_nth k v l) = replace_nth k w l.
Proof.
  revert k. induction l as [| a l IH]; intros [| k]; cbn; try reflexivity.
  now rewrite IH.
Qed.

Lemma In_replace_nth {A : Type} (k : nat) (v a : A) (l : list A) :
  In a (replace_nth k v l) -> a = v \/ In a l.
Proof.
  revert k. induction l as [| b l IH]; intros [| k]; cbn; try tauto.
  - intros [-> | H]; auto.
  - intros [-> | H]; auto. destruct (IH _ H); auto.
Qed.

(** ** Dispatch *)

Lemma invoke_elements now n l pg :
  elements (invoke now n l pg) = elements pg.
Proof. unfold invoke. now destruct (nth_error _ _). Qed.

Lemma invoke_closures_length now n l pg :
  List.length (closures (invoke now n l pg)) = List.length (closures pg).
Proof.
  unfold invoke. destruct (nth_error _ _); [| reflexivity].
  cbn. apply length_replace_nth.
Qed.

Lemma invoke_other now n l pg k :
  l_closure l <> k ->
  nth_error (closures (invoke now n l pg)) k = nth_error (closures pg) k.
Proof.
  intros H. unfold invoke. destruct (nth_error _ (l_closure l));
    [| reflexivity].
  cbn. apply nth_error_replace_nth_other. congruence.
Qed.

Lemma fold_invoke_elements now n ls : forall pg,
  elements (fold_left (fun pg l => invoke now n l pg) ls pg) = elements pg.
Proof.
  induction ls as [| l ls IH]; intros pg; cbn; [reflexivity |].
  now rewrite IH, invoke_elements.
Qed.

Lemma fold_invoke_closures_length now n ls : forall pg,
  List.length (closures (fold_left (fun pg l => invoke now n l pg) ls pg)) =
  List.length (closures pg).
Proof.
  induction ls as [| l ls IH]; intros pg; cbn; [reflexivity |].
  now rewrite IH, invoke_closures_length.
Qed.

Lemma fold_invoke_other now n k ls : forall pg,
  (forall l, In l ls -> l_closure l <> k) ->
  nth_error (closures (fold_left (fun pg l => invoke now n l pg) ls pg)) k =
  nth_error (closures pg) k.
Proof.
  induction ls as [| l ls IH]; intros pg H; cbn; [reflexivity |].
  rewrite IH by (intros l' Hl'; apply H; now right).
  apply invoke_other, H. now left.
Qed.

Lemma dispatch_elements now t n pg :
  elements (dispatch now t n pg) = elements pg.
Proof.
  unfold dispatch. destruct (nth_error _ _); [| reflexivity].
  apply fold_invoke_elements.
Qed.

Lemma dispatch_closures_length now t n pg :
  List.length (closures (dispatch now t n pg)) = List.length (closures pg).
Proof.
  unfold dispatch. destruct (nth_error _ _); [| reflexivity].
  apply fold_invoke_closures_length.
Qed.

Lemma deliver_elements now sched : forall pg,
  elements (deliver now sched pg) = elements pg.
Proof.
  induction sched as [| [t n] sched IH]; intros pg; cbn; [reflexivity |].
  now rewrite IH, dispatch_elements.
Qed.

Lemma deliver_closures_length now sched : forall pg,
  List.length (closures (deliver now sched pg)) = List.length (closures pg).
Proof.
  induction sched as [| [t n] sched IH]; intros pg; cbn; [reflexivity |].
  now rewrite IH, dispatch_closures_length.
Qed.

Lemma dispatch_unbound now t n pg k :
  unbound k pg ->
  nth_error (closures (dispatch now t n pg)) k = nth_error (closures pg) k.
Proof.
  intros H. unfold dispatch.
  destruct (nth_error (elements pg) t) as [el |] eqn:E; [| reflexivity].
  apply fold_invoke_other. intros l Hl. apply filter_In in Hl.
  apply (H el); [| tauto]. eapply nth_error_In, E.
Qed.

Lemma deliver_unbound now sched k : forall pg,
  unbound k pg ->
  nth_error (closures (deliver now sched pg)) k = nth_error (closures pg) k.
Proof.
  induction sched as [| [t n] sched IH]; intros pg H; cbn; [reflexivity |].
  rewrite IH.
  - now apply dispatch_unbound.
  - unfold unbound. now rewrite dispatch_elements.
Qed.

(** ** Listeners *)

Lemma listener_eqb_foreign (l l' : Listener) :
  l_closure l' <> l_closure l -> listener_eqb l l' = false.
Proof.
  intros H. unfold listener_eqb.
  assert (Nat.eqb (l_closure l) (l_closure l') = false) as ->
    by (apply Nat.eqb_neq; congruence).
  now rewrite andb_false_r.
Qed.

Lemma existsb_foreign (k : nat) (l : Listener) (ls : list Listener) :
  foreign k ls -> l_closure l = k -> existsb (listener_eqb l) ls = false.
Proof.
  intros Hf Hk. induction ls as [| l' ls IH]; [reflexivity |].
  cbn [existsb]. rewrite listener_eqb_foreign, IH; [reflexivity | |].
  - intros l'' H. apply Hf. now right.
  - rewrite Hk. apply Hf. now left.
Qed.

Lemma filter_foreign (k : nat) (l : Listener) (ls : list Listener) :
  foreign k ls -> l_closure l = k ->
  filter (fun l' => negb (listener_eqb l l')) ls = ls.
Proof.
  intros Hf Hk. induction ls as [| l' ls IH]; [reflexivity |].
  cbn [filter]. rewrite listener_eqb_foreign, IH; [reflexivity | |].
  - intros l'' H. apply Hf. now right.
  - rewrite Hk. apply Hf. now left.
Qed.

Lemma add_fresh (l : Listener) (ta : string) (ls : list Listener) :
  existsb (listener_eqb l) ls = false ->
  addEventListener l {| touchAction := ta; listeners := ls |} =
  {| touchAction := ta; listeners := ls ++ [l] |}.
Proof. intros H. unfold addEventListener. cbn. now rewrite H. Qed.

Lemma remove_split (l : Listener) (ta : string) (ls own : list Listener) :
  foreign (l_closure l) ls ->
  removeEventListener l {| touchAction := ta; listeners := ls ++ own |} =
  {| touchAction := ta;
     listeners := ls ++ filter (fun l' => negb (listener_eqb l l')) own |}.
Proof.
  intros H. unfold removeEventListener. cbn [touchAction listeners].
  now rewrite filter_app, (filter_foreign (l_closure l)).
Qed.

(** Registering the four listeners of a new environment appends them. *)
Lemma add_four_listeners (k : nat) (el : Element) :
  foreign k (listeners el) ->
  fold_left (fun el l => addEventListener l el) (four_listeners k) el =
  {| touchAction := touchAction el;
     listeners := listeners el ++ four_listeners k |}.
Proof.
  destruct el as [ta ls]. cbn [touchAction listeners]. intros Hf.
  unfold four_listeners. cbn [fold_left].
  rewrite (add_fresh _ ta ls) by now apply (existsb_foreign k).
  rewrite (add_fresh _ ta (ls ++ [_]))
    by (rewrite existsb_app, (existsb_foreign k _ ls); auto).
  rewrite (add_fresh _ ta ((ls ++ [_]) ++ [_]))
    by (rewrite !existsb_app, (existsb_foreign k _ ls); auto).
  rewrite (add_fresh _ ta (((ls ++ [_]) ++ [_]) ++ [_]))
    by (rewrite !existsb_app, (existsb_foreign k _ ls); auto).
  now rewrite <- !app_assoc.
Qed.

(** Removing them gives back the listeners there were before. *)
Lemma remove_four_listeners (k : nat) (ta : string) (ls : list Listener) :
  foreign k ls ->
  fold_left (fun el l => removeEventListener l el) (four_listeners k)
    {| touchAction := ta; listeners := ls ++ four_listeners k |} =
  {| touchAction := ta; listeners := ls |}.
Proof.
  intros Hf. unfold four_listeners, removeEventListener.
  cbn [fold_left touchAction listeners].
  rewrite !filter_app.
  rewrite !(filter_foreign k _ ls) by (exact Hf || reflexivity).
  unfold listener_eqb.
  do 4 (cbn; rewrite ?Nat.eqb_refl).
  cbn. now rewrite app_nil_r.
Qed.

Lemma remove_four_foreign (k : nat) (el : Element) :
  foreign k (listeners el) ->
  fold_left (fun el l => removeEventListener l el) (four_listeners k) el = el.
Proof.
  destruct el as [ta ls]. cbn [listeners]. intros Hf.
  unfold four_listeners, removeEventListener.
  cbn [fold_left touchAction listeners].
  now rewrite !(filter_foreign k _ ls) by (exact Hf || reflexivity).
Qed.

(** ** Attach and detach *)

Lemma page_ok_foreign (pg : Page) (el : Element) :
  page_ok pg -> In el (elements pg) ->
  foreign (List.length (closures pg)) (listeners el).
Proof.
  intros Hok Hin l Hl. specialize (Hok el Hin l Hl). lia.
Qed.

Lemma nth_error_lt {A : Type} (l : list A) (k : nat) (a : A) :
  nth_error l k = Some a -> (k < List.length l)%nat.
Proof. intros H. apply nth_error_Some. congruence. Qed.

Lemma attach_present t h o pg el :
  page_ok pg ->
  nth_error (elements pg) t = Some el ->
  attachPinchPanGesture (Some t) h o pg =
  Normal
    ({| elements :=
          replace_nth t (bound (List.length (closures pg)) el) (elements pg);
        closures := closures pg ++ [new_closure h o];
        page_ticks := page_ticks pg |},
     detach (List.length (closures pg)) t).
Proof.
  intros Hok Hel. unfold attachPinchPanGesture, update_element.
  cbn [elements closures page_ticks]. rewrite Hel.
  cbn [elements closures page_ticks].
  rewrite nth_error_replace_nth_same by (eapply nth_error_lt, Hel).
  rewrite replace_nth_twice.
  rewrite add_four_listeners.
  - reflexivity.
  - cbn [listeners]. eapply page_ok_foreign; [exact Hok |].
    eapply nth_error_In, Hel.
Qed.

(** [detach] on a page where the environment [k] is bound to [t]. *)
Lemma detach_bound k t pg ta ls cl :
  foreign k ls ->
  nth_error (elements pg) t =
    Some {| touchAction := ta; listeners := ls ++ four_listeners k |} ->
  nth_error (closures pg) k = Some cl ->
  detach k t pg =
  {| elements :=
       replace_nth t {| touchAction := ta; listeners := ls |} (elements pg);
     closures :=
       replace_nth k
         {| cl_handlers := cl_handlers cl;
            cl_preventDefault := cl_preventDefault cl;
            cl_capturePointers := cl_capturePointers cl;
            cl_vars := State.initial;
            cl_effects := cl_effects cl |} (closures pg);
     page_ticks := page_ticks pg |}.
Proof.
  intros Hf Hel Hcl. unfold detach, update_element, update_closure.
  rewrite Hel. cbn [elements closures page_ticks]. rewrite Hcl.
  now rewrite remove_four_listeners.
Qed.

(** [detach] on a page where the environment [k] is bound nowhere and its
    variables are as declared: nothing changes. *)
Lemma detach_idle k t pg cl :
  unbound k pg ->
  nth_error (closures pg) k = Some cl ->
  cl_vars cl = State.initial ->
  detach k t pg = pg.
Proof.
  intros Hu Hcl Hv. unfold detach, update_element.
  assert (match nth_error (elements pg) t with
          | Some el =>
              {| elements :=
                   replace_nth t
                     (fold_left (fun el l => removeEventListener l el)
                        (four_listeners k) el) (elements pg);
                 closures := closures pg;
                 page_ticks := page_ticks pg |}
          | None => pg
          end = pg) as ->.
  { destruct (nth_error (elements pg) t) as [el |] eqn:E; [| reflexivity].
    rewrite remove_four_foreign
      by (intros l Hl; eapply Hu; [eapply nth_error_In, E | exact Hl]).
    rewrite replace_nth_id by exact E. now destruct pg. }
  unfold update_closure. rewrite Hcl.
  rewrite replace_nth_id; [now destruct pg |].
  rewrite Hcl. f_equal. destruct cl; cbn in *. now subst.
Qed.


Lemma map_replace_nth {A B : Type} (f : A -> B) (k : nat) (a a' : A)
    (l : list A) :
  nth_error l k = Some a -> f a' = f a ->
  map f (replace_nth k a' l) = map f l.
Proof.
  revert k. induction l as [| b l IH]; intros [| k]; cbn; try discriminate.
  - intros [= ->] ->. reflexivity.
  - intros H1 H2. f_equal. now apply IH.
Qed.

Lemma unbound_deliver now sched k pg :
  unbound k pg -> unbound k (deliver now sched pg).
Proof. unfold unbound. now rewrite deliver_elements. Qed.

Lemma snapshots_of_same k pg pg' :
  nth_error (closures pg') k = nth_error (closures pg) k ->
  snapshots_of k pg' = snapshots_of k pg.
Proof. unfold snapshots_of. now intros ->. Qed.

(** C8.  The function [attachPinchPanGesture] returns, called after any
    notifications: no listener of the attachment is left on the page and the
    listeners of every element are those there were before the attachment;
    the registry is empty and the session variables are as declared; from
    then on, whatever notifications are delivered to whatever element, the
    attachment emits nothing and its variables do not change, and a further
    call of the function changes nothing. *)
Theorem detach_unbinds now t h o pg el sched pg1 d :
  page_ok pg ->
  nth_error (elements pg) t = Some el ->
  attachPinchPanGesture (Some t) h o pg = Normal (pg1, d) ->
  let k := List.length (closures pg) in
  let pg3 := d (deliver now sched pg1) in
  unbound k pg3 /\
  map listeners (elements pg3) = map listeners (elements pg) /\
  (exists cl,
     nth_error (closures pg3) k = Some cl /\ cl_vars cl = State.initial) /\
  snapshots_of k pg3 = snapshots_of k (deliver now sched pg1) /\
  (forall now' sched',
     d (deliver now' sched' pg3) = deliver now' sched' pg3 /\
     nth_error (closures (deliver now' sched' pg3)) k =
       nth_error (closures pg3) k /\
     snapshots_of k (deliver now' sched' pg3) = snapshots_of k pg3).
Proof.
  intros Hok Hel Hattach k pg3.
  rewrite (attach_present t h o pg el Hok Hel) in Hattach.
  injection Hattach as <- <-. fold k in pg3 |- *.
  set (pg1 := {| elements := _; closures := _; page_ticks := _ |}) in *.
  set (pg2 := deliver now sched pg1) in *.
  assert (t < List.length (elements pg))%nat as Ht
    by (eapply nth_error_lt, Hel).
  assert (foreign k (listeners el)) as Hf.
  { eapply page_ok_foreign; [exact Hok |]. eapply nth_error_In, Hel. }
  assert (elements pg2 = replace_nth t (bound k el) (elements pg)) as He2.
  { subst pg2. now rewrite deliver_elements. }
  assert (k < List.length (closures pg2))%nat as Hk.
  { subst pg2. rewrite deliver_closures_length. subst pg1.
    cbn [closures]. rewrite length_app. cbn. lia. }
  destruct (nth_error (closures pg2) k) as [cl2 |] eqn:Hcl2;
    [| apply nth_error_None in Hcl2; lia].
  assert (pg3 =
          {| elements :=
               replace_nth t
                 {| touchAction := touchAction (bound k el);
                    listeners := listeners el |} (elements pg);
             closures :=
               replace_nth k
                 {| cl_handlers := cl_handlers cl2;
                    cl_preventDefault := cl_preventDefault cl2;
                    cl_capturePointers := cl_capturePointers cl2;
                    cl_vars := State.initial;
                    cl_effects := cl_effects cl2 |} (closures pg2);
             page_ticks := page_ticks pg2 |}) as Hpg3.
  { subst pg3.
    rewrite (detach_bound k t pg2 (touchAction (bound k el)) (listeners el)
               cl2 Hf).
    - now rewrite He2, replace_nth_twice.
    - rewrite He2. now apply nth_error_replace_nth_same.
    - exact Hcl2. }
  assert (unbound k pg3) as Hu.
  { rewrite Hpg3. intros el' Hin l Hl. cbn [elements] in Hin.
    apply In_replace_nth in Hin. destruct Hin as [-> | Hin].
    - now apply Hf.
    - now apply (page_ok_foreign pg el' Hok Hin). }
  assert (nth_error (closures pg3) k =
          Some {| cl_handlers := cl_handlers cl2;
                  cl_preventDefault := cl_preventDefault cl2;
                  cl_capturePointers := cl_capturePointers cl2;
                  cl_vars := State.initial;
                  cl_effects := cl_effects cl2 |}) as Hcl3.
  { rewrite Hpg3. cbn [closures]. now apply nth_error_replace_nth_same. }
  split; [exact Hu |]. split.
  { rewrite Hpg3. cbn [elements].
    now apply (map_replace_nth listeners t el). }
  split; [eexists; split; [exact Hcl3 | reflexivity] |].
  split.
  { unfold snapshots_of. now rewrite Hcl3, Hcl2. }
  intros now' sched'.
  pose proof (deliver_unbound now' sched' k pg3 Hu) as Hsame.
  split; [| split; [exact Hsame | now apply snapshots_of_same]].
  eapply detach_idle.
  - now apply unbound_deliver.
  - rewrite Hsame. exact Hcl3.
  - reflexivity.
Qed.

(** ** Two runs compared without their clock readings *)

Lemma alike_refl c : alike c c.
Proof. now split. Qed.

Lemma alike_perform_l eff c1 c2 :
  (forall s, eff <> Emit s) -> alike c1 c2 -> alike (perform eff c1) c2.
Proof.
  intros H [Hv He]. split; [exact Hv |].
  now rewrite emitted_perform_other.
Qed.

Lemma alike_perform_r eff c1 c2 :
  (forall s, eff <> Emit s) -> alike c1 c2 -> alike c1 (perform eff c2).
Proof.
  intros H [Hv He]. split; [exact Hv |].
  now rewrite emitted_perform_other.
Qed.

Lemma alike_optional (b1 b2 : bool) eff1 eff2 c1 c2 :
  (forall s, eff1 <> Emit s) -> (forall s, eff2 <> Emit s) ->
  alike c1 c2 ->
  alike (if b1 then perform eff1 c1 else c1)
        (if b2 then perform eff2 c2 else c2).
Proof.
  intros H1 H2 H. destruct b1, b2; auto using alike_perform_l,
    alike_perform_r.
Qed.

Lemma alike_with_vars f c1 c2 :
  alike c1 c2 -> alike (with_vars f c1) (with_vars f c2).
Proof. intros [Hv He]. split; [cbn; now rewrite Hv | exact He]. Qed.

Lemma alike_emit now1 now2 ph m c1 c2 :
  alike c1 c2 -> alike (emit now1 ph m c1) (emit now2 ph m c2).
Proof.
  intros [Hv He]. split.
  - cbn. now rewrite Hv.
  - cbn [emit effects]. rewrite !emitted_app, !map_app, He, Hv.
    reflexivity.
Qed.

Lemma alike_onPointerDown now1 now2 pd1 pd2 cp1 cp2 e c1 c2 :
  alike c1 c2 ->
  alike (onPointerDown now1 pd1 cp1 e c1) (onPointerDown now2 pd2 cp2 e c2).
Proof.
  intros H. unfold onPointerDown.
  set (a1 := if pd1 then perform (PreventDefault e) c1 else c1).
  set (a2 := if pd2 then perform (PreventDefault e) c2 else c2).
  assert (alike a1 a2) as Ha by (apply alike_optional; auto; discriminate).
  set (b1 := if tracked_type (pointerType e) then _ else a1).
  set (b2 := if tracked_type (pointerType e) then _ else a2).
  assert (alike b1 b2) as Hb.
  { subst b1 b2. destruct (tracked_type _); [| exact Ha].
    now apply alike_with_vars. }
  set (d1 := if cp1 then _ else b1).
  set (d2 := if cp2 then _ else b2).
  assert (alike d1 d2) as Hd by (apply alike_optional; auto; discriminate).
  set (f1 := if negb (State.active (vars d1)) then _ else d1).
  set (f2 := if negb (State.active (vars d2)) then _ else d2).
  assert (alike f1 f2) as Hf.
  { subst f1 f2. rewrite (proj1 Hd). destruct (negb _); [| exact Hd].
    now apply alike_with_vars. }
  rewrite (proj1 Hd), (proj1 Hf).
  destruct (size_is_1_or_2 (vars f2)); [| exact Hf].
  now apply alike_emit, alike_with_vars.
Qed.

Lemma alike_onPointerMove now1 now2 pd1 pd2 e c1 c2 :
  alike c1 c2 ->
  alike (onPointerMove now1 pd1 e c1) (onPointerMove now2 pd2 e c2).
Proof.
  intros H. unfold onPointerMove. rewrite (proj1 H).
  destruct (negb (PointerMap.has _ _)); [exact H |].
  set (a1 := if pd1 then perform (PreventDefault e) c1 else c1).
  set (a2 := if pd2 then perform (PreventDefault e) c2 else c2).
  assert (alike a1 a2) as Ha by (apply alike_optional; auto; discriminate).
  rewrite (proj1 Ha).
  destruct (PointerMap.get _ _); [| exact Ha].
  set (b1 := with_vars _ a1). set (b2 := with_vars _ a2).
  assert (alike b1 b2) as Hb by now apply alike_with_vars.
  rewrite (proj1 Hb).
  destruct (negb _); [exact Hb |].
  destruct (size_is_1_or_2 _); [| exact Hb].
  now apply alike_emit.
Qed.

Lemma alike_endLike now1 now2 pd1 pd2 ph e c1 c2 :
  alike c1 c2 ->
  alike (endLike now1 pd1 ph e c1) (endLike now2 pd2 ph e c2).
Proof.
  intros H. unfold endLike. rewrite (proj1 H).
  destruct (negb (PointerMap.has _ _)); [exact H |].
  set (a1 := if pd1 then perform (PreventDefault e) c1 else c1).
  set (a2 := if pd2 then perform (PreventDefault e) c2 else c2).
  assert (alike a1 a2) as Ha by (apply alike_optional; auto; discriminate).
  set (b1 := with_vars _ a1). set (b2 := with_vars _ a2).
  assert (alike b1 b2) as Hb by now apply alike_with_vars.
  rewrite (proj1 Hb).
  set (m := match getActivePoints (vars b2) with [] => _ | _ :: _ => _ end).
  assert (alike (emit now1 ph m b1) (emit now2 ph m b2)) as He
    by now apply alike_emit.
  set (g1 := emit now1 ph m b1) in *. set (g2 := emit now2 ph m b2) in *.
  rewrite (proj1 He).
  destruct (size_is_1_or_2 (vars g2)).
  - now apply alike_emit, alike_with_vars.
  - destruct (_ =? 0)%Z; [| exact He]. now apply alike_with_vars.
Qed.

Lemma alike_handle now1 now2 pd1 pd2 cp1 cp2 n c1 c2 :
  alike c1 c2 ->
  alike (handle now1 pd1 cp1 n c1) (handle now2 pd2 cp2 n c2).
Proof.
  destruct n; cbn [handle].
  - apply alike_onPointerDown.
  - apply alike_onPointerMove.
  - apply alike_endLike.
  - apply alike_endLike.
Qed.

Lemma alike_feed now1 now2 pd1 pd2 cp1 cp2 ns : forall c1 c2,
  alike c1 c2 ->
  alike (feed now1 pd1 cp1 ns c1) (feed now2 pd2 cp2 ns c2).
Proof.
  induction ns as [| n ns IH]; intros c1 c2 H; [exact H |].
  cbn [feed]. now apply IH, alike_handle.
Qed.

Lemma owned_foreign k ls : foreign k ls -> owned k ls = [].
Proof.
  intros H. induction ls as [| l ls IH]; [reflexivity |].
  cbn. assert (Nat.eqb (l_closure l) k = false) as ->.
  { apply Nat.eqb_neq, H. now left. }
  apply IH. intros l' Hl'. apply H. now right.
Qed.

Lemma owned_four_same k : owned k (four_listeners k) = four_listeners k.
Proof. cbn. now rewrite Nat.eqb_refl. Qed.

Lemma owned_four_other k k' : k' <> k -> owned k (four_listeners k') = [].
Proof.
  intros H. cbn. assert (Nat.eqb k' k = false) as -> by now apply Nat.eqb_neq.
  reflexivity.
Qed.

Lemma owned_app k ls ls' : owned k (ls ++ ls') = owned k ls ++ owned k ls'.
Proof. apply filter_app. Qed.

Lemma nth_error_replace_nth {A : Type} (k j : nat) (v : A) (l : list A) :
  (k < List.length l)%nat ->
  nth_error (replace_nth k v l) j =
  if Nat.eqb j k then Some v else nth_error l j.
Proof.
  intros H. destruct (Nat.eqb j k) eqn:E.
  - apply Nat.eqb_eq in E. subst j. now apply nth_error_replace_nth_same.
  - apply Nat.eqb_neq in E. now apply nth_error_replace_nth_other.
Qed.

(** What [attachPinchPanGesture] establishes and keeps. *)
Lemma attach_attached t h o pg el pg' d :
  page_ok pg ->
  nth_error (elements pg) t = Some el ->
  attachPinchPanGesture (Some t) h o pg = Normal (pg', d) ->
  page_ok pg' /\
  attached (List.length (closures pg)) t pg' /\
  List.length (elements pg') = List.length (elements pg) /\
  closures pg' = closures pg ++ [new_closure h o] /\
  (forall k' t',
     (k' < List.length (closures pg))%nat ->
     attached k' t' pg -> attached k' t' pg').
Proof.
  intros Hok Hel Hattach.
  rewrite (attach_present t h o pg el Hok Hel) in Hattach.
  injection Hattach as <- <-.
  set (k := List.length (closures pg)).
  assert (t < List.length (elements pg))%nat as Ht
    by (eapply nth_error_lt, Hel).
  assert (foreign k (listeners el)) as Hf.
  { eapply page_ok_foreign; [exact Hok |]. eapply nth_error_In, Hel. }
  cbn [elements closures].
  split; [| split; [| split; [| split]]].
  - intros el' Hin l Hl. cbn [elements closures] in *.
    rewrite length_app. cbn [List.length].
    apply In_replace_nth in Hin. destruct Hin as [-> | Hin].
    + cbn [bound listeners] in Hl. apply in_app_or in Hl.
      destruct Hl as [Hl | Hl].
      * specialize (Hok el (nth_error_In _ _ Hel) l Hl). lia.
      * cbn in Hl. fold k.
        repeat (destruct Hl as [<- | Hl]; [cbn; lia |]). destruct Hl.
    + specialize (Hok el' Hin l Hl). lia.
  - unfold attached. cbn [elements].
    split; [now rewrite length_replace_nth |].
    intros t' el'. rewrite nth_error_replace_nth by exact Ht.
    destruct (Nat.eqb t' t) eqn:E.
    + intros [= <-]. cbn [bound listeners].
      now rewrite owned_app, owned_foreign, owned_four_same.
    + intros H. apply owned_foreign.
      eapply page_ok_foreign; [exact Hok |]. eapply nth_error_In, H.
  - apply length_replace_nth.
  - reflexivity.
  - intros k' t' Hk' [Ht' Hown]. unfold attached. cbn [elements].
    split; [now rewrite length_replace_nth |].
    intros t'' el''. rewrite nth_error_replace_nth by exact Ht.
    destruct (Nat.eqb t'' t) eqn:E.
    + intros [= <-]. cbn [bound listeners].
      rewrite owned_app, owned_four_other, app_nil_r by (fold k; lia).
      apply Nat.eqb_eq in E. subst t''. now apply Hown.
    + apply Hown.
Qed.

Lemma listener_runs_handle now pd cp k n l :
  In l (four_listeners k) ->
  l_type l = type_of n ->
  run_listener now pd cp (l_fn l) (event_of n) = handle now pd cp n.
Proof.
  intros Hin Hty. cbn in Hin.
  destruct Hin as [<- | [<- | [<- | [<- | []]]]];
    destruct n; cbn in Hty; try discriminate; reflexivity.
Qed.

Lemma invoke_own now now0 pd0 cp0 k n l pg cl c :
  In l (four_listeners k) ->
  l_type l = type_of n ->
  nth_error (closures pg) k = Some cl ->
  runs_as cl c ->
  exists cl',
    nth_error (closures (invoke now n l pg)) k = Some cl' /\
    runs_as cl' (handle now0 pd0 cp0 n c).
Proof.
  intros Hin Hty Hcl Hrun.
  assert (l_closure l = k) as Hk.
  { cbn in Hin. destruct Hin as [<- | [<- | [<- | [<- | []]]]]; reflexivity. }
  unfold invoke. rewrite Hk, Hcl. cbn [closures].
  rewrite nth_error_replace_nth_same by (eapply nth_error_lt, Hcl).
  eexists. split; [reflexivity |].
  rewrite (listener_runs_handle now _ _ k n l Hin Hty).
  unfold runs_as, ctx_of. cbn [cl_vars cl_effects].
  set (r := handle now _ _ n _).
  assert (alike r (handle now0 pd0 cp0 n c)) as H.
  { subst r. apply alike_handle. exact Hrun. }
  exact H.
Qed.

Lemma fold_invoke_own now now0 pd0 cp0 k n ls : forall pg cl c,
  nth_error (closures pg) k = Some cl ->
  runs_as cl c ->
  (forall l, In l ls -> l_closure l = k ->
     In l (four_listeners k) /\ l_type l = type_of n) ->
  exists cl',
    nth_error
      (closures (fold_left (fun pg l => invoke now n l pg) ls pg)) k =
      Some cl' /\
    runs_as cl'
      (fold_left (fun c _ => handle now0 pd0 cp0 n c) (owned k ls) c).
Proof.
  induction ls as [| l ls IH]; intros pg cl c Hcl Hrun Hown.
  - exists cl. now split.
  - cbn [fold_left owned filter].
    destruct (Nat.eqb (l_closure l) k) eqn:E.
    + apply Nat.eqb_eq in E.
      destruct (Hown l (or_introl eq_refl) E) as [Hin Hty].
      destruct (invoke_own now now0 pd0 cp0 k n l pg cl c Hin Hty Hcl Hrun)
        as (cl1 & Hcl1 & Hrun1).
      cbn [fold_left]. apply (IH _ cl1); auto.
      intros l' Hl'. apply Hown. now right.
    + apply Nat.eqb_neq in E.
      apply (IH _ cl); auto.
      * now rewrite invoke_other.
      * intros l' Hl'. apply Hown. now right.
Qed.

Lemma owned_filter k (f : Listener -> bool) ls :
  owned k (filter f ls) = filter f (owned k ls).
Proof.
  unfold owned. induction ls as [| l ls IH]; [reflexivity |].
  cbn. destruct (f l) eqn:Ef, (Nat.eqb (l_closure l) k) eqn:Ek; cbn;
    rewrite ?Ef, ?Ek, IH; reflexivity.
Qed.

Lemma In_owned k l ls : In l ls -> l_closure l = k -> In l (owned k ls).
Proof.
  intros Hin Hk. apply filter_In. split; [exact Hin |].
  now apply Nat.eqb_eq.
Qed.

Lemma dispatch_attached now now0 pd0 cp0 k t t' n pg cl c :
  attached k t pg ->
  nth_error (closures pg) k = Some cl ->
  runs_as cl c ->
  exists cl',
    nth_error (closures (dispatch now t' n pg)) k = Some cl' /\
    runs_as cl' (if Nat.eqb t' t then handle now0 pd0 cp0 n c else c).
Proof.
  intros [Ht Hown] Hcl Hrun. unfold dispatch.
  destruct (nth_error (elements pg) t') as [el |] eqn:Hel.
  - specialize (Hown t' el Hel).
    set (ls := filter _ (listeners el)).
    destruct (fold_invoke_own now now0 pd0 cp0 k n ls pg cl c Hcl Hrun)
      as (cl' & Hcl' & Hrun').
    { intros l Hl Hk. subst ls. apply filter_In in Hl.
      destruct Hl as [Hl Hty]. apply String.eqb_eq in Hty.
      split; [| exact Hty].
      pose proof (In_owned k l _ Hl Hk) as Hin. rewrite Hown in Hin.
      destruct (Nat.eqb t' t); [exact Hin | destruct Hin]. }
    exists cl'. split; [exact Hcl' |].
    subst ls. rewrite owned_filter, Hown in Hrun'.
    destruct (Nat.eqb t' t); [| exact Hrun'].
    destruct n; exact Hrun'.
  - exists cl. split; [exact Hcl |].
    assert (Nat.eqb t' t = false) as ->; [| exact Hrun].
    apply Nat.eqb_neq. intros ->. apply nth_error_None in Hel. lia.
Qed.

Lemma attached_dispatch now k t t' n pg :
  attached k t pg -> attached k t (dispatch now t' n pg).
Proof. unfold attached. now rewrite dispatch_elements. Qed.

Lemma sent_to_cons t t' n sched :
  sent_to t ((t', n) :: sched) =
  if Nat.eqb t' t then n :: sent_to t sched else sent_to t sched.
Proof. unfold sent_to. cbn. now destruct (Nat.eqb t' t). Qed.

Lemma deliver_attached now now0 pd0 cp0 k t sched : forall pg cl c,
  attached k t pg ->
  nth_error (closures pg) k = Some cl ->
  runs_as cl c ->
  exists cl',
    nth_error (closures (deliver now sched pg)) k = Some cl' /\
    runs_as cl' (feed now0 pd0 cp0 (sent_to t sched) c).
Proof.
  induction sched as [| [t' n] sched IH]; intros pg cl c Hatt Hcl Hrun.
  - exists cl. now split.
  - cbn [deliver]. rewrite sent_to_cons.
    destruct (dispatch_attached now now0 pd0 cp0 k t t' n pg cl c
                Hatt Hcl Hrun) as (cl1 & Hcl1 & Hrun1).
    destruct (IH _ cl1 _ (attached_dispatch now k t t' n pg Hatt) Hcl1 Hrun1)
      as (cl' & Hcl' & Hrun').
    exists cl'. split; [exact Hcl' |].
    now destruct (Nat.eqb t' t).
Qed.

Lemma runs_as_new h o : runs_as (new_closure h o) fresh.
Proof. split; reflexivity. Qed.

(** An environment attached to [t] emits what a recognizer fed alone with
    the notifications delivered to [t] emits, clock readings apart. *)
Lemma attached_runs_alone now now0 pd0 cp0 k t h o pg sched :
  attached k t pg ->
  nth_error (closures pg) k = Some (new_closure h o) ->
  map untimed (snapshots_of k (deliver now sched pg)) =
  map untimed (emitted (effects (feed now0 pd0 cp0 (sent_to t sched) fresh))).
Proof.
  intros Hatt Hcl.
  destruct (deliver_attached now now0 pd0 cp0 k t sched pg _ fresh Hatt Hcl
              (runs_as_new h o)) as (cl' & Hcl' & _ & Hrun).
  unfold snapshots_of. rewrite Hcl'. exact Hrun.
Qed.

(** C9 (amended).  Two recognizers attached one after the other on a page,
    to the same element or to two, each delivered the notification sequence
    [ns], in any interleaving: the two snapshot sequences are equal in every
    field but the timestamp, and equal in that sense to the snapshots of a
    recognizer fed [ns] alone, on any clock and with any options. *)
Theorem independent_instances_agree
    now pg t1 t2 h1 h2 o1 o2 el1 el2 pgA pgB d1 d2 sched ns :
  page_ok pg ->
  nth_error (elements pg) t1 = Some el1 ->
  attachPinchPanGesture (Some t1) h1 o1 pg = Normal (pgA, d1) ->
  nth_error (elements pgA) t2 = Some el2 ->
  attachPinchPanGesture (Some t2) h2 o2 pgA = Normal (pgB, d2) ->
  sent_to t1 sched = ns ->
  sent_to t2 sched = ns ->
  let k1 := List.length (closures pg) in
  let k2 := S k1 in
  let final := deliver now sched pgB in
  map untimed (snapshots_of k1 final) = map untimed (snapshots_of k2 final) /\
  forall now0 pd0 cp0,
    map untimed (snapshots_of k1 final) =
    map untimed (emitted (effects (feed now0 pd0 cp0 ns fresh))).
Proof.
  intros Hok Hel1 Hatt1 Hel2 Hatt2 Hs1 Hs2 k1 k2 final.
  destruct (attach_attached t1 h1 o1 pg el1 pgA d1 Hok Hel1 Hatt1)
    as (HokA & HattA & _ & HclA & _).
  destruct (attach_attached t2 h2 o2 pgA el2 pgB d2 HokA Hel2 Hatt2)
    as (_ & HattB2 & _ & HclB & Hkeep).
  assert (List.length (closures pgA) = k2) as Hk2.
  { rewrite HclA, length_app. cbn. subst k2 k1. lia. }
  rewrite Hk2 in HattB2.
  assert (attached k1 t1 pgB) as HattB1.
  { apply Hkeep; [| exact HattA]. rewrite Hk2. subst k2. lia. }
  assert (nth_error (closures pgB) k1 = Some (new_closure h1 o1)) as Hc1.
  { rewrite HclB, HclA. rewrite nth_error_app1
      by (rewrite length_app; cbn; subst k1; lia).
    rewrite nth_error_app2 by (subst k1; lia).
    subst k1. now rewrite Nat.sub_diag. }
  assert (nth_error (closures pgB) k2 = Some (new_closure h2 o2)) as Hc2.
  { rewrite HclB. rewrite nth_error_app2 by lia.
    rewrite Hk2. now rewrite Nat.sub_diag. }
  assert (forall now0 pd0 cp0,
            map untimed (snapshots_of k1 final) =
            map untimed (emitted (effects (feed now0 pd0 cp0 ns fresh))))
    as H1.
  { intros now0 pd0 cp0. subst final. rewrite <- Hs1.
    now apply (attached_runs_alone now now0 pd0 cp0 k1 t1 h1 o1). }
  split; [| exact H1].
  rewrite (H1 now true true). subst final. rewrite <- Hs2. symmetry.
  now apply (attached_runs_alone now now true true k2 t2 h2 o2).
Qed.

Lemma page_ok_blank n : page_ok (blank_page n).
Proof.
  intros el Hin l Hl. cbn in Hin. apply repeat_spec in Hin. subst el.
  destruct Hl.
Qed.


Lemma detach_unbinds_witness :
  let pg1 :=
    {| elements := [bound 0 blank_element];
       closures := [new_closure all_handlers no_options];
       page_ticks := 0 |} in
  let sched :=
    [ (0%nat, pointerdown (contact 1 "touch" 10 10));
      (0%nat, pointermove (contact 1 "touch" 30 10)) ] in
  let pg3 := detach 0 0 (deliver steady_clock sched pg1) in
  attachPinchPanGesture (Some 0%nat) all_handlers no_options (blank_page 1) =
    Normal (pg1, detach 0 0) /\
  List.length (snapshots_of 0 (deliver steady_clock sched pg1)) = 2%nat /\
  unbound 0 pg3 /\
  (exists cl,
     nth_error (closures pg3) 0 = Some cl /\ cl_vars cl = State.initial) /\
  forall now' sched',
    detach 0 0 (deliver now' sched' pg3) = deliver now' sched' pg3 /\
    snapshots_of 0 (deliver now' sched' pg3) = snapshots_of 0 pg3.
Proof.
  intros pg1 sched pg3.
  assert (attachPinchPanGesture (Some 0%nat) all_handlers no_options
            (blank_page 1) = Normal (pg1, detach 0 0)) as Hattach
    by (cbn; reflexivity).
  destruct (detach_unbinds steady_clock 0%nat all_handlers no_options
              (blank_page 1) blank_element sched pg1 (detach 0 0)
              (page_ok_blank 1) eq_refl Hattach)
    as (Hu & _ & Hcl & _ & Hafter).
  split; [exact Hattach |]. split; [cbn; reflexivity |].
  split; [exact Hu |]. split; [exact Hcl |].
  intros now' sched'. destruct (Hafter now' sched') as (H1 & _ & H3).
  now split.
Defined.

(** C9 as worded fails: the timestamp of a snapshot is the clock reading at
    its emission, and two recognizers delivered the same pointerdown one
    after the other read the clock at different times. *)
Lemma clock_readings_tell_instances_apart :
  let e := contact 1 "touch" 0 0 in
  let sched := [ (0%nat, pointerdown e); (1%nat, pointerdown e) ] in
  let pgA :=
    {| elements := [bound 0 blank_element; blank_element];
       closures := [new_closure all_handlers no_options];
       page_ticks := 0 |} in
  let pgB :=
    {| elements := [bound 0 blank_element; bound 1 blank_element];
       closures := [ new_closure all_handlers no_options;
                     new_closure all_handlers no_options ];
       page_ticks := 0 |} in
  let final := deliver steady_clock sched pgB in
  attachPinchPanGesture (Some 0%nat) all_handlers no_options (blank_page 2) =
    Normal (pgA, detach 0 0) /\
  attachPinchPanGesture (Some 1%nat) all_handlers no_options pgA =
    Normal (pgB, detach 1 1) /\
  sent_to 0 sched = [pointerdown e] /\
  sent_to 1 sched = [pointerdown e] /\
  map Snapshot.timestamp (snapshots_of 0 final) = [0] /\
  map Snapshot.timestamp (snapshots_of 1 final) = [1] /\
  snapshots_of 0 final <> snapshots_of 1 final.
Proof.
  cbv zeta.
  split; [cbn; reflexivity |]. split; [cbn; reflexivity |].
  split; [reflexivity |]. split; [reflexivity |].
  split; [cbn; reflexivity |]. split; [cbn; reflexivity |].
  cbn. intros H. injection H as H. lra.
Qed.

Lemma independent_instances_agree_witness :
  let e := contact 1 "touch" 0 0 in
  let e' := contact 1 "touch" 40 30 in
  let ns := [pointerdown e; pointermove e'; pointerup e'] in
  let sched :=
    [ (0%nat, pointerdown e); (1%nat, pointerdown e);
      (1%nat, pointermove e'); (0%nat, pointermove e');
      (0%nat, pointerup e'); (1%nat, pointerup e') ] in
  let pgA :=
    {| elements := [bound 0 blank_element; blank_element];
       closures := [new_closure all_handlers no_options];
       page_ticks := 0 |} in
  let pgB :=
    {| elements := [bound 0 blank_element; bound 1 blank_element];
       closures := [ new_closure all_handlers no_options;
                     new_closure all_handlers no_options ];
       page_ticks := 0 |} in
  let final := deliver steady_clock sched pgB in
  List.length (snapshots_of 0 final) = 3%nat /\
  map untimed (snapshots_of 0 final) = map untimed (snapshots_of 1 final).
Proof.
  intros e e' ns sched pgA pgB final.
  split; [cbn; reflexivity |].
  refine (proj1
    (independent_instances_agree steady_clock (blank_page 2) 0%nat 1%nat
       all_handlers all_handlers no_options no_options
       blank_element blank_element pgA pgB (detach 0 0) (detach 1 1)
       sched ns (page_ok_blank 2) eq_refl _ eq_refl _ eq_refl eq_refl)).
  - cbn. reflexivity.
  - cbn. reflexivity.
Defined.

(** ** Further properties of the recognizer and of the page *)

(** ** More on the registry *)

Lemma has_In_keys (id : Z) (m : PointerMap.t) :
  PointerMap.has id m = true <-> In id (PointerMap.keys m).
Proof.
  induction m as [| [k v] m IH]; cbn; [split; [discriminate | tauto] |].
  destruct (k =? id)%Z eqn:E.
  - apply Z.eqb_eq in E. split; auto.
  - apply Z.eqb_neq in E. rewrite IH. split; [auto | intros [H | H]; tauto].
Qed.

Lemma has_false_not_In (id : Z) (m : PointerMap.t) :
  PointerMap.has id m = false <-> ~ In id (PointerMap.keys m).
Proof.
  rewrite <- has_In_keys. destruct (PointerMap.has id m); split;
    congruence.
Qed.

Lemma keys_set (id : Z) (v : MutablePoint) (m : PointerMap.t) :
  PointerMap.keys (PointerMap.set id v m) =
  if PointerMap.has id m then PointerMap.keys m
  else PointerMap.keys m ++ [id].
Proof.
  destruct (PointerMap.has id m) eqn:E.
  - now apply keys_set_present.
  - now apply has_set_absent_keys.
Qed.

Lemma In_keys_delete (id id' : Z) (m : PointerMap.t) :
  In id' (PointerMap.keys (PointerMap.delete id m)) ->
  In id' (PointerMap.keys m).
Proof.
  induction m as [| [k v] m IH]; cbn; [tauto |].
  destruct (k =? id)%Z; cbn; tauto.
Qed.

Lemma NoDup_keys_set (id : Z) (v : MutablePoint) (m : PointerMap.t) :
  NoDup (PointerMap.keys m) -> NoDup (PointerMap.keys (PointerMap.set id v m)).
Proof.
  intros H. rewrite keys_set. destruct (PointerMap.has id m) eqn:E;
    [exact H |].
  apply NoDup_app; [exact H | repeat constructor; auto |].
  intros k Hk1 [<- | []]. now apply has_false_not_In in E.
Qed.

Lemma NoDup_keys_delete (id : Z) (m : PointerMap.t) :
  NoDup (PointerMap.keys m) -> NoDup (PointerMap.keys (PointerMap.delete id m)).
Proof.
  induction m as [| [k v] m IH]; cbn; [auto |].
  intros H. inversion H as [| ? ? Hk Hm]; subst.
  destruct (k =? id)%Z; [exact Hm |].
  cbn. constructor; [| now apply IH].
  intros Hin. apply Hk. eapply In_keys_delete, Hin.
Qed.

Lemma has_delete_same (id : Z) (m : PointerMap.t) :
  NoDup (PointerMap.keys m) ->
  PointerMap.has id (PointerMap.delete id m) = false.
Proof.
  induction m as [| [k v] m IH]; cbn; [reflexivity |].
  intros H. inversion H as [| ? ? Hk Hm]; subst.
  destruct (k =? id)%Z eqn:E.
  - apply Z.eqb_eq in E. subst k. now apply has_false_not_In.
  - cbn. rewrite E. now apply IH.
Qed.

Lemma size_delete_present (id : Z) (m : PointerMap.t) :
  PointerMap.has id m = true ->
  PointerMap.size (PointerMap.delete id m) = (PointerMap.size m - 1)%Z.
Proof.
  unfold PointerMap.size.
  induction m as [| [k v] m IH]; cbn [PointerMap.has PointerMap.delete];
    [discriminate |].
  destruct (k =? id)%Z; intros H.
  - cbn [List.length]. lia.
  - specialize (IH H). cbn [List.length]. lia.
Qed.

Lemma size_nonneg (m : PointerMap.t) : (0 <= PointerMap.size m)%Z.
Proof. unfold PointerMap.size. lia. Qed.

(** What each handler does to the registry. *)
Lemma onPointerDown_pointers now pd cp e c :
  State.pointers (vars (onPointerDown now pd cp e c)) =
  if tracked_type (pointerType e)
  then PointerMap.set (pointerId e) {| x := clientX e; y := clientY e |}
         (State.pointers (vars c))
  else State.pointers (vars c).
Proof.
  unfold onPointerDown.
  set (c1 := if pd then perform (PreventDefault e) c else c).
  set (c2 := if tracked_type (pointerType e) then _ else c1).
  set (c3 := if cp then _ else c2).
  set (c4 := if negb (State.active (vars c3)) then _ else c3).
  assert (State.pointers (vars c4) = State.pointers (vars c2)) as H4.
  { subst c4 c3. destruct (negb _), cp; reflexivity. }
  assert (State.pointers (vars c1) = State.pointers (vars c)) as H1
    by (subst c1; now destruct pd).
  assert (State.pointers (vars (if size_is_1_or_2 (vars c4)
                                then emit now start
                                       (computeMetrics
                                          (getActivePoints (vars c3)))
                                       (with_vars
                                          (rebase
                                             (computeMetrics
                                                (getActivePoints (vars c3))))
                                          c4)
                                else c4)) =
          State.pointers (vars c4)) as ->
    by now destruct (size_is_1_or_2 (vars c4)).
  rewrite H4. subst c2. destruct (tracked_type _); [| exact H1].
  cbn. now rewrite H1.
Qed.

Lemma onPointerMove_pointers now pd e c :
  State.pointers (vars (onPointerMove now pd e c)) =
  if PointerMap.has (pointerId e) (State.pointers (vars c))
  then PointerMap.set (pointerId e) {| x := clientX e; y := clientY e |}
         (State.pointers (vars c))
  else State.pointers (vars c).
Proof.
  unfold onPointerMove.
  destruct (PointerMap.has _ _) eqn:Hhas; cbn [negb]; [| reflexivity].
  destruct (has_get _ _ Hhas) as [p Hp].
  rewrite vars_prevent, Hp.
  set (c2 := with_vars _ _).
  assert (State.pointers (vars c2) =
          PointerMap.set (pointerId e) {| x := clientX e; y := clientY e |}
            (State.pointers (vars c))) as H2.
  { subst c2. cbn. now rewrite vars_prevent. }
  destruct (negb _); [exact H2 |].
  destruct (size_is_1_or_2 _); exact H2.
Qed.

Lemma endLike_pointers now pd ph e c :
  State.pointers (vars (endLike now pd ph e c)) =
  if PointerMap.has (pointerId e) (State.pointers (vars c))
  then PointerMap.delete (pointerId e) (State.pointers (vars c))
  else State.pointers (vars c).
Proof.
  unfold endLike.
  destruct (PointerMap.has _ _) eqn:Hhas; cbn [negb]; [| reflexivity].
  set (c2 := with_vars _ _).
  assert (State.pointers (vars c2) =
          PointerMap.delete (pointerId e) (State.pointers (vars c))) as H2.
  { subst c2. cbn. now rewrite vars_prevent. }
  set (m := match getActivePoints (vars c2) with [] => _ | _ :: _ => _ end).
  destruct (size_is_1_or_2 _); [exact H2 |].
  destruct (_ =? 0)%Z; exact H2.
Qed.

Lemma handle_NoDup now pd cp n c :
  NoDup (PointerMap.keys (State.pointers (vars c))) ->
  NoDup (PointerMap.keys (State.pointers (vars (handle now pd cp n c)))).
Proof.
  intros H. destruct n; cbn [handle]; unfold onPointerUp, onPointerCancel.
  - rewrite onPointerDown_pointers. destruct (tracked_type _); [| exact H].
    now apply NoDup_keys_set.
  - rewrite onPointerMove_pointers. destruct (PointerMap.has _ _); [| exact H].
    now apply NoDup_keys_set.
  - rewrite endLike_pointers. destruct (PointerMap.has _ _); [| exact H].
    now apply NoDup_keys_delete.
  - rewrite endLike_pointers. destruct (PointerMap.has _ _); [| exact H].
    now apply NoDup_keys_delete.
Qed.

Lemma feed_NoDup now pd cp ns : forall c,
  NoDup (PointerMap.keys (State.pointers (vars c))) ->
  NoDup (PointerMap.keys (State.pointers (vars (feed now pd cp ns c)))).
Proof.
  induction ns as [| n ns IH]; intros c H; [exact H |].
  cbn [feed]. now apply IH, handle_NoDup.
Qed.

Lemma endLike_forgets now pd ph e c :
  NoDup (PointerMap.keys (State.pointers (vars c))) ->
  PointerMap.has (pointerId e)
    (State.pointers (vars (endLike now pd ph e c))) = false.
Proof.
  intros H. rewrite endLike_pointers.
  destruct (PointerMap.has (pointerId e) (State.pointers (vars c))) eqn:E;
    [| exact E].
  now apply has_delete_same.
Qed.

(** X1.  On every run the identifiers of the registry are pairwise distinct;
    after a pointerup or a pointercancel the identifier of the event is not
    in the registry, whether it was before or not; after a pointerdown of a
    tracked pointer type the registry holds the position of the event under
    its identifier. *)
Theorem registry_ids_are_distinct now pd cp ns :
  let c := feed now pd cp ns fresh in
  NoDup (PointerMap.keys (State.pointers (vars c))) /\
  (forall e,
     PointerMap.has (pointerId e)
       (State.pointers (vars (onPointerUp now pd e c))) = false /\
     PointerMap.has (pointerId e)
       (State.pointers (vars (onPointerCancel now pd e c))) = false) /\
  (forall e,
     tracked_type (pointerType e) = true ->
     PointerMap.get (pointerId e)
       (State.pointers (vars (onPointerDown now pd cp e c))) =
     Some {| x := clientX e; y := clientY e |}).
Proof.
  intros c.
  assert (NoDup (PointerMap.keys (State.pointers (vars c)))) as H
    by (apply feed_NoDup; constructor).
  split; [exact H |]. split.
  - intros e. split; now apply endLike_forgets.
  - intros e Hty. rewrite onPointerDown_pointers, Hty. apply get_set_same.
Qed.

(** X2.  A pointermove, pointerup or pointercancel for an identifier that
    is not in the registry changes nothing at all: no variable, no clock
    reading, no effect, not even [preventDefault()]. *)
Theorem unknown_contact_is_ignored now pd cp e c :
  PointerMap.has (pointerId e) (State.pointers (vars c)) = false ->
  handle now pd cp (pointermove e) c = c /\
  handle now pd cp (pointerup e) c = c /\
  handle now pd cp (pointercancel e) c = c.
Proof.
  intros H. cbn [handle].
  unfold onPointerUp, onPointerCancel, onPointerMove, endLike.
  now rewrite H.
Qed.

Lemma computeMetrics_distance_defined (pts : list MutablePoint) :
  is_number (Metrics.distance (computeMetrics pts)) =
  (2 <=? Z.of_nat (List.length pts))%Z.
Proof.
  destruct pts as [| a [| b pts]]; cbn [computeMetrics Metrics.distance
    is_number List.length]; symmetry;
    [apply Z.leb_gt; lia | apply Z.leb_gt; lia | apply Z.leb_le; lia].
Qed.

Lemma computeMetrics_angle_defined (pts : list MutablePoint) :
  is_number (Metrics.angleRad (computeMetrics pts)) =
  (2 <=? Z.of_nat (List.length pts))%Z.
Proof.
  destruct pts as [| a [| b pts]]; cbn [computeMetrics Metrics.angleRad
    is_number List.length]; symmetry;
    [apply Z.leb_gt; lia | apply Z.leb_gt; lia | apply Z.leb_le; lia].
Qed.

Lemma size_getActivePoints (st : State.t) :
  Z.of_nat (List.length (getActivePoints st)) =
  PointerMap.size (State.pointers st).
Proof. unfold getActivePoints. now rewrite size_values. Qed.

Lemma size_is_1_or_2_iff (st : State.t) :
  size_is_1_or_2 st = true <->
  (PointerMap.size (State.pointers st) = 1 \/
   PointerMap.size (State.pointers st) = 2)%Z.
Proof.
  unfold size_is_1_or_2. rewrite orb_true_iff, !Z.eqb_eq. tauto.
Qed.

(** The session anchored to the geometry of its registry and emitting with
    it satisfies the invariant. *)
Lemma session_inv_rebased now ph c :
  size_is_1_or_2 (vars c) = true ->
  State.active (vars c) = true ->
  let m := computeMetrics (getActivePoints (vars c)) in
  session_inv (vars (emit now ph m (with_vars (rebase m) c))).
Proof.
  intros Hsize Hact m.
  destruct (emit_after_rebase now ph (getActivePoints (vars c)) c)
    as (s & _ & _ & _ & _ & _ & Hp & Ha & Hg & Hd & Hr & Hl & Ht).
  fold m in Hp, Ha, Hg, Hd, Hr, Hl, Ht.
  apply size_is_1_or_2_iff in Hsize.
  constructor; rewrite ?Hp, ?Ha, ?Hg, ?Hd, ?Hr, ?Hl, ?Ht.
  - now intros _.
  - cbn [is_point]. split; symmetry; apply Z.leb_le; lia.
  - subst m. rewrite computeMetrics_distance_defined.
    now rewrite size_getActivePoints.
  - subst m. rewrite computeMetrics_angle_defined.
    now rewrite size_getActivePoints.
  - unfold origin. f_equal; lra.
Qed.

Lemma session_inv_idle (st : State.t) (b : bool) :
  PointerMap.size (State.pointers st) = 0%Z ->
  session_inv (resetGestureState (set_active b st)).
Proof.
  intros H. constructor; cbn; rewrite ?H; try reflexivity; try tauto.
  lia.
Qed.

Lemma session_inv_resize (ps : PointerMap.t) (st : State.t) :
  session_inv st ->
  (1 <=? PointerMap.size ps)%Z =
    (1 <=? PointerMap.size (State.pointers st))%Z ->
  (2 <=? PointerMap.size ps)%Z =
    (2 <=? PointerMap.size (State.pointers st))%Z ->
  session_inv (set_pointers ps st).
Proof.
  intros [Ha Hc Hd Hr Ht] H1 H2.
  constructor; cbn [set_pointers State.pointers State.active
    State.gestureStartCenter State.gestureStartDistance
    State.gestureStartAngleRad State.lastCenter State.translation];
    rewrite ?H1, ?H2; auto.
  intros H. apply Ha. apply Z.leb_le. rewrite <- H1. now apply Z.leb_le.
Qed.

Lemma session_inv_emit now ph c :
  session_inv (vars c) ->
  (1 <= PointerMap.size (State.pointers (vars c)))%Z ->
  session_inv
    (vars (emit now ph (computeMetrics (getActivePoints (vars c))) c)).
Proof.
  intros [Ha Hc Hd Hr Ht] Hsize.
  pose proof (computeMetrics_distance_defined (getActivePoints (vars c)))
    as Hmd.
  rewrite size_getActivePoints in Hmd.
  constructor; cbn [emit vars State.pointers State.active
    State.gestureStartCenter State.gestureStartDistance
    State.gestureStartAngleRad State.lastCenter State.translation].
  - exact Ha.
  - cbn [is_point]. split; symmetry; now apply Z.leb_le.
  - destruct (State.gestureStartDistance (vars c)); [exact Hd |].
    rewrite Hmd. cbn [is_number] in Hd. now rewrite <- Hd.
  - destruct (State.gestureStartAngleRad (vars c)); [exact Hr |].
    rewrite Hmd. cbn [is_number] in Hr. now rewrite <- Hr.
  - cbn. reflexivity.
Qed.

Lemma session_inv_onPointerDown now pd cp e c :
  session_inv (vars c) ->
  session_inv (vars (onPointerDown now pd cp e c)).
Proof.
  intros Hinv. unfold onPointerDown.
  set (c1 := if pd then perform (PreventDefault e) c else c).
  set (c2 := if tracked_type (pointerType e) then _ else c1).
  set (c3 := if cp then _ else c2).
  set (c4 := if negb (State.active (vars c3)) then _ else c3).
  set (ps := State.pointers (vars c)) in *.
  set (ps' := if tracked_type (pointerType e)
              then PointerMap.set (pointerId e)
                     {| x := clientX e; y := clientY e |} ps
              else ps).
  assert (vars c3 = set_pointers ps' (vars c)) as H3.
  { subst c3 c2 c1 ps' ps.
    destruct cp, (tracked_type _), pd; cbn; try reflexivity;
      now destruct (vars c). }
  assert (State.pointers (vars c4) = ps') as Hp4.
  { subst c4. destruct (negb _); cbn; now rewrite H3. }
  assert (State.active (vars c4) = true) as Ha4.
  { subst c4. destruct (State.active (vars c3)) eqn:E; cbn; auto. }
  assert (getActivePoints (vars c3) = getActivePoints (vars c4)) as Hpts.
  { unfold getActivePoints. now rewrite Hp4, H3. }
  rewrite Hpts.
  destruct (size_is_1_or_2 (vars c4)) eqn:Hsz.
  - now apply session_inv_rebased.
  - assert (PointerMap.size ps' <> 1 /\ PointerMap.size ps' <> 2)%Z as Hne.
    { unfold size_is_1_or_2 in Hsz. rewrite Hp4 in Hsz.
      apply orb_false_iff in Hsz. now rewrite !Z.eqb_neq in Hsz. }
    pose proof (size_nonneg ps') as Hnn.
    assert (PointerMap.size ps <= PointerMap.size ps'
            <= PointerMap.size ps + 1)%Z as Hgrow.
    { subst ps'. destruct (tracked_type _); [| lia].
      destruct (PointerMap.has (pointerId e) ps) eqn:Hhas.
      - rewrite size_set_present by exact Hhas. lia.
      - rewrite has_set_absent_size by exact Hhas. lia. }
    assert (PointerMap.size ps' = 0 \/ 3 <= PointerMap.size ps')%Z
      as [Hzero | Hmany] by lia.
    + subst c4. destruct (negb (State.active (vars c3))).
      * apply session_inv_idle. cbn. now rewrite H3.
      * rewrite H3. apply session_inv_resize; [exact Hinv | |];
          fold ps; pose proof (size_nonneg ps);
          assert (PointerMap.size ps = 0)%Z as -> by lia;
          now rewrite Hzero.
    + assert (State.active (vars c) = true) as Hact
        by (apply (inv_active _ Hinv); fold ps; lia).
      subst c4. rewrite H3. cbn [set_pointers State.active]. rewrite Hact.
      cbn [negb]. rewrite H3.
      apply session_inv_resize; [exact Hinv | |]; fold ps.
      * transitivity true; [| symmetry]; apply Z.leb_le; lia.
      * transitivity true; [| symmetry]; apply Z.leb_le; lia.
Qed.

Lemma session_inv_onPointerMove now pd e c :
  session_inv (vars c) ->
  session_inv (vars (onPointerMove now pd e c)).
Proof.
  intros Hinv. unfold onPointerMove.
  destruct (PointerMap.has _ _) eqn:Hhas; cbn [negb]; [| exact Hinv].
  destruct (has_get _ _ Hhas) as [p Hp].
  rewrite vars_prevent, Hp.
  set (c2 := with_vars _ _).
  assert (vars c2 =
          set_pointers
            (PointerMap.set (pointerId e)
               {| x := clientX e; y := clientY e |}
               (State.pointers (vars c))) (vars c)) as H2.
  { subst c2. cbn. now rewrite vars_prevent. }
  assert (session_inv (vars c2)) as Hinv2.
  { rewrite H2. apply session_inv_resize; [exact Hinv | |];
      now rewrite size_set_present. }
  destruct (negb _); [exact Hinv2 |].
  destruct (size_is_1_or_2 (vars c2)) eqn:Hsz; [| exact Hinv2].
  apply session_inv_emit; [exact Hinv2 |].
  apply size_is_1_or_2_iff in Hsz. lia.
Qed.

Lemma session_inv_endLike now pd ph e c :
  session_inv (vars c) ->
  session_inv (vars (endLike now pd ph e c)).
Proof.
  intros Hinv. unfold endLike.
  destruct (PointerMap.has _ _) eqn:Hhas; cbn [negb]; [| exact Hinv].
  set (c2 := with_vars _ _).
  set (ps := State.pointers (vars c)) in *.
  assert (vars c2 = set_pointers (PointerMap.delete (pointerId e) ps) (vars c))
    as H2.
  { subst c2. cbn. now rewrite vars_prevent. }
  assert (PointerMap.size (State.pointers (vars c2)) =
          PointerMap.size ps - 1)%Z as Hsize2.
  { rewrite H2. cbn. now apply size_delete_present. }
  pose proof (size_nonneg (State.pointers (vars c2))) as Hnn.
  assert (State.active (vars c2) = true) as Hact2.
  { rewrite H2. cbn. apply (inv_active _ Hinv). fold ps. lia. }
  set (m := match getActivePoints (vars c2) with [] => _ | _ :: _ => _ end).
  destruct (size_is_1_or_2 (vars (emit now ph m c2))) eqn:Hsz.
  - apply session_inv_rebased; [exact Hsz |].
    now rewrite emit_vars_active.
  - unfold size_is_1_or_2 in Hsz. rewrite emit_vars_pointers in Hsz.
    apply orb_false_iff in Hsz. rewrite !Z.eqb_neq in Hsz.
    rewrite emit_vars_pointers.
    destruct (_ =? 0)%Z eqn:Hz.
    + apply session_inv_idle. apply Z.eqb_eq in Hz.
      cbn. exact Hz.
    + apply Z.eqb_neq in Hz.
      assert (m = computeMetrics (getActivePoints (vars c2))) as ->.
      { subst m. destruct (getActivePoints (vars c2)) eqn:E;
          [| reflexivity].
        exfalso. apply Hz. rewrite <- size_getActivePoints, E.
        reflexivity. }
      apply session_inv_emit; [| lia].
      assert (PointerMap.size (PointerMap.delete (pointerId e) ps) =
              PointerMap.size ps - 1)%Z as Hdel
        by now apply size_delete_present.
      rewrite H2. apply session_inv_resize; [exact Hinv | |]; fold ps;
        rewrite Hdel; (transitivity true; [| symmetry]); apply Z.leb_le;
        lia.
Qed.

Lemma session_inv_handle now pd cp n c :
  session_inv (vars c) -> session_inv (vars (handle now pd cp n c)).
Proof.
  destruct n; cbn [handle].
  - apply session_inv_onPointerDown.
  - apply session_inv_onPointerMove.
  - apply session_inv_endLike.
  - apply session_inv_endLike.
Qed.

Lemma session_inv_feed now pd cp ns : forall c,
  session_inv (vars c) -> session_inv (vars (feed now pd cp ns c)).
Proof.
  induction ns as [| n ns IH]; intros c H; [exact H |].
  cbn [feed]. now apply IH, session_inv_handle.
Qed.

Lemma session_inv_initial : session_inv State.initial.
Proof. constructor; cbn; try reflexivity; try tauto. lia. Qed.

(** ** The emission sites *)

Lemma Forall_emitted_snoc (P : Snapshot.t -> Prop) effs s :
  Forall P (emitted effs) -> P s -> Forall P (emitted (effs ++ [Emit s])).
Proof.
  intros H Hs. rewrite emitted_app. apply Forall_app. split; [exact H |].
  cbn. now constructor.
Qed.

(** A property of snapshots holds of everything a handler emits as soon as
    it holds at the three places where the handlers call [emit]: after an
    anchoring, with phase start; on a move of one or two contacts; on an end
    or a cancel. *)
Lemma handle_emissions now pd cp n c (P : Snapshot.t -> Prop) :
  (forall c0 s,
     size_is_1_or_2 (vars c0) = true ->
     effects (emit now start (computeMetrics (getActivePoints (vars c0)))
                (with_vars
                   (rebase (computeMetrics (getActivePoints (vars c0)))) c0))
       = effects c0 ++ [Emit s] ->
     P s) ->
  (forall c0 s,
     size_is_1_or_2 (vars c0) = true ->
     effects (emit now move (computeMetrics (getActivePoints (vars c0))) c0)
       = effects c0 ++ [Emit s] ->
     P s) ->
  (forall ph p c0 s,
     ph = phase_end \/ ph = cancel ->
     effects (emit now ph (remaining_metrics p (vars c0)) c0)
       = effects c0 ++ [Emit s] ->
     P s) ->
  Forall P (emitted (effects c)) ->
  Forall P (emitted (effects (handle now pd cp n c))).
Proof.
  intros Hstart Hmove Hend HP.
  assert (forall c0, Forall P (emitted (effects c0)) ->
                     size_is_1_or_2 (vars c0) = true ->
                     Forall P
                       (emitted
                          (effects
                             (emit now start
                                (computeMetrics (getActivePoints (vars c0)))
                                (with_vars
                                   (rebase
                                      (computeMetrics
                                         (getActivePoints (vars c0)))) c0)))))
    as Hstart'.
  { intros c0 H0 Hsz.
    destruct (emit_appends now start
                (computeMetrics (getActivePoints (vars c0)))
                (with_vars
                   (rebase (computeMetrics (getActivePoints (vars c0)))) c0))
      as (s & Hs & _).
    cbn [with_vars effects] in Hs. rewrite Hs.
    apply Forall_emitted_snoc; [exact H0 |]. now apply (Hstart c0). }
  assert (forall ph e c0, ph = phase_end \/ ph = cancel ->
                          Forall P (emitted (effects c0)) ->
                          Forall P (emitted (effects (endLike now pd ph e c0))))
    as Hend'.
  { intros ph e c0 Hph H0. unfold endLike.
    destruct (negb (PointerMap.has _ _)); [exact H0 |].
    set (c2 := with_vars _ _).
    assert (Forall P (emitted (effects c2))) as H2.
    { subst c2. cbn [with_vars effects]. now rewrite emitted_prevent. }
    set (m := match getActivePoints (vars c2) with [] => _ | _ :: _ => _ end).
    assert (Forall P (emitted (effects (emit now ph m c2)))) as H3.
    { destruct (emit_appends now ph m c2) as (s & Hs & _). rewrite Hs.
      apply Forall_emitted_snoc; [exact H2 |].
      eapply (Hend ph _ c2 s Hph). exact Hs. }
    destruct (size_is_1_or_2 (vars (emit now ph m c2))) eqn:Hsz.
    - now apply Hstart'.
    - destruct (_ =? 0)%Z; exact H3. }
  destruct n; cbn [handle].
  - unfold onPointerDown.
    set (c1 := if pd then perform (PreventDefault e) c else c).
    set (c2 := if tracked_type (pointerType e) then _ else c1).
    set (c3 := if cp then _ else c2).
    set (c4 := if negb (State.active (vars c3)) then _ else c3).
    assert (Forall P (emitted (effects c4))) as H4.
    { subst c4 c3 c2 c1.
      destruct pd, (tracked_type (pointerType e)), cp;
        destruct (negb _); cbn [with_vars effects];
        rewrite ?emitted_perform_other by discriminate;
        cbn [with_vars effects];
        rewrite ?emitted_perform_other by discriminate; exact HP. }
    assert (getActivePoints (vars c3) = getActivePoints (vars c4)) as ->.
    { subst c4. now destruct (negb _). }
    destruct (size_is_1_or_2 (vars c4)) eqn:Hsz; [| exact H4].
    now apply Hstart'.
  - unfold onPointerMove.
    destruct (negb (PointerMap.has _ _)); [exact HP |].
    set (c1 := if pd then perform (PreventDefault e) c else c).
    assert (Forall P (emitted (effects c1))) as H1
      by (subst c1; now rewrite emitted_prevent).
    destruct (PointerMap.get _ _); [| exact H1].
    set (c2 := with_vars _ c1).
    destruct (negb _); [exact H1 |].
    destruct (size_is_1_or_2 (vars c2)) eqn:Hsz; [| exact H1].
    destruct (emit_appends now move
                (computeMetrics (getActivePoints (vars c2))) c2)
      as (s & Hs & _).
    rewrite Hs. apply Forall_emitted_snoc; [exact H1 |].
    now apply (Hmove c2).
  - apply Hend'; auto.
  - apply Hend'; auto.
Qed.

Lemma feed_emissions now pd cp ns (P : Snapshot.t -> Prop) :
  (forall c0 s,
     size_is_1_or_2 (vars c0) = true ->
     effects (emit now start (computeMetrics (getActivePoints (vars c0)))
                (with_vars
                   (rebase (computeMetrics (getActivePoints (vars c0)))) c0))
       = effects c0 ++ [Emit s] ->
     P s) ->
  (forall c0 s,
     size_is_1_or_2 (vars c0) = true ->
     effects (emit now move (computeMetrics (getActivePoints (vars c0))) c0)
       = effects c0 ++ [Emit s] ->
     P s) ->
  (forall ph p c0 s,
     ph = phase_end \/ ph = cancel ->
     effects (emit now ph (remaining_metrics p (vars c0)) c0)
       = effects c0 ++ [Emit s] ->
     P s) ->
  forall c,
    Forall P (emitted (effects c)) ->
    Forall P (emitted (effects (feed now pd cp ns c))).
Proof.
  intros Hstart Hmove Hend.
  induction ns as [| n ns IH]; intros c HP; [exact HP |].
  cbn [feed]. apply IH. now apply handle_emissions.
Qed.

Lemma snoc_inj {A : Type} (l : list A) (a b : A) :
  l ++ [a] = l ++ [b] -> a = b.
Proof. intros H. apply app_inv_head in H. now injection H. Qed.

Lemma truthy_true (d : R) : JsMath.truthy d = true -> d <> 0.
Proof. unfold JsMath.truthy. now destruct (Req_dec_T d 0). Qed.

Lemma clamp_small (n : Z) :
  (n = 1 \/ n = 2)%Z -> clampPointersCount n = n.
Proof. intros [-> | ->]; reflexivity. Qed.

Lemma clamp_range (n : Z) : (0 <= clampPointersCount n <= 2)%Z.
Proof.
  unfold clampPointersCount.
  destruct (n <=? 0)%Z; [lia |]. destruct (n =? 1)%Z; lia.
Qed.

Lemma clamp_two (n : Z) :
  (0 <= n)%Z -> (clampPointersCount n =? 2)%Z = (2 <=? n)%Z.
Proof.
  intros Hn. unfold clampPointersCount.
  destruct (n <=? 0)%Z eqn:E0.
  - apply Z.leb_le in E0. symmetry. apply Z.leb_gt. lia.
  - apply Z.leb_gt in E0. destruct (n =? 1)%Z eqn:E1.
    + apply Z.eqb_eq in E1. subst n. reflexivity.
    + apply Z.eqb_neq in E1. symmetry. apply Z.leb_le. lia.
Qed.

Lemma clamp_positive (n : Z) : (1 <= n)%Z -> (1 <= clampPointersCount n)%Z.
Proof.
  intros Hn. unfold clampPointersCount.
  destruct (n <=? 0)%Z eqn:E0; [apply Z.leb_le in E0; lia |].
  destruct (n =? 1)%Z; lia.
Qed.

(** The start snapshot emitted after an anchoring is neutral. *)
Lemma start_after_rebase_neutral now c0 s :
  size_is_1_or_2 (vars c0) = true ->
  effects (emit now start (computeMetrics (getActivePoints (vars c0)))
             (with_vars
                (rebase (computeMetrics (getActivePoints (vars c0)))) c0))
    = effects c0 ++ [Emit s] ->
  neutral_start s.
Proof.
  intros Hsz Hs _.
  apply size_is_1_or_2_iff in Hsz.
  cbn [emit with_vars effects vars] in Hs. apply snoc_inj in Hs.
  injection Hs as <-. cbn [Snapshot.translation Snapshot.delta Snapshot.scale
    Snapshot.rotationRad Snapshot.pointers rebase State.lastCenter
    State.gestureStartCenter State.gestureStartDistance State.pointers
    State.gestureStartAngleRad].
  unfold origin, toReadonlyPoint. cbn [x y].
  split; [f_equal; lra |]. split; [f_equal; lra |].
  rewrite clamp_small by exact Hsz.
  split; [| split; [| exact Hsz]].
  - destruct (computeMetrics _) as [ctr [d |] ang]; cbn; [| reflexivity].
    destruct (JsMath.truthy d) eqn:Et; cbn; [| reflexivity].
    destruct (JsMath.gtb d 0); [| reflexivity].
    apply truthy_true in Et. now field.
  - destruct (getActivePoints (vars c0)) as [| a [| b pts]]; cbn;
      try reflexivity. lra.
Qed.

Lemma emit_counted now ph m c s :
  is_number (Metrics.distance m) =
    (2 <=? PointerMap.size (State.pointers (vars c)))%Z ->
  (ph = start \/ ph = move ->
   (1 <= PointerMap.size (State.pointers (vars c)))%Z) ->
  effects (emit now ph m c) = effects c ++ [Emit s] ->
  counted s.
Proof.
  intros Hm Hph Hs. cbn [emit effects] in Hs. apply snoc_inj in Hs.
  injection Hs as <-. unfold counted.
  cbn [Snapshot.pointers Snapshot.pinchDistance Snapshot.phase].
  split; [apply clamp_range |]. split.
  - rewrite clamp_two by apply size_nonneg. exact Hm.
  - intros H. now apply clamp_positive, Hph.
Qed.

Lemma remaining_metrics_distance p st :
  is_number (Metrics.distance (remaining_metrics p st)) =
  (2 <=? PointerMap.size (State.pointers st))%Z.
Proof.
  unfold remaining_metrics. rewrite <- size_getActivePoints.
  destruct (getActivePoints st) eqn:E; [reflexivity |].
  apply computeMetrics_distance_defined.
Qed.

(** X4.  Every start snapshot of every run is neutral: translation (0,0),
    delta (0,0), scale 1, rotation 0, and a contact count of 1 or 2. *)
Theorem start_snapshots_are_neutral now pd cp ns :
  Forall neutral_start (emitted (effects (feed now pd cp ns fresh))).
Proof.
  apply feed_emissions.
  - intros c0 s. apply start_after_rebase_neutral.
  - intros c0 s _ Hs Hph.
    destruct (emit_appends now move
                (computeMetrics (getActivePoints (vars c0))) c0)
      as (s' & Hs' & Hph' & _).
    rewrite Hs' in Hs. apply snoc_inj in Hs. injection Hs as <-. congruence.
  - intros ph p c0 s Hend Hs Hph.
    destruct (emit_appends now ph (remaining_metrics p (vars c0)) c0)
      as (s' & Hs' & Hph' & _).
    rewrite Hs' in Hs. apply snoc_inj in Hs. injection Hs as <-.
    destruct Hend; congruence.
  - constructor.
Qed.

(** X5.  Every snapshot of every run has a contact count of 0, 1 or 2, has
    a pinch distance exactly when the count is 2, and has at least one
    contact when its phase is start or move. *)
Theorem snapshots_count_contacts now pd cp ns :
  Forall counted (emitted (effects (feed now pd cp ns fresh))).
Proof.
  apply feed_emissions.
  - intros c0 s Hsz Hs. apply size_is_1_or_2_iff in Hsz.
    eapply emit_counted; [| | exact Hs].
    + cbn [with_vars vars rebase State.pointers].
      rewrite computeMetrics_distance_defined.
      now rewrite size_getActivePoints.
    + cbn [with_vars vars rebase State.pointers]. lia.
  - intros c0 s Hsz Hs. apply size_is_1_or_2_iff in Hsz.
    eapply emit_counted; [| | exact Hs].
    + rewrite computeMetrics_distance_defined.
      now rewrite size_getActivePoints.
    + lia.
  - intros ph p c0 s Hend Hs.
    eapply emit_counted; [| | exact Hs].
    + apply remaining_metrics_distance.
    + intros [-> | ->]; destruct Hend; discriminate.
  - constructor.
Qed.

Lemma clocked_refl now c : clocked now c c.
Proof. exists []. rewrite app_nil_r, Nat.add_0_r. now repeat split. Qed.

Lemma clocked_trans now c1 c2 c3 :
  clocked now c1 c2 -> clocked now c2 c3 -> clocked now c1 c3.
Proof.
  intros (n1 & He1 & Ht1 & Hs1) (n2 & He2 & Ht2 & Hs2).
  exists (n1 ++ n2). rewrite He2, He1, Ht2, Ht1, <- app_assoc.
  rewrite length_app, map_app, seq_app, map_app, Hs1, <- Ht1, Hs2.
  repeat split. lia.
Qed.

Lemma clocked_silent now c c' :
  emitted (effects c') = emitted (effects c) -> ticks c' = ticks c ->
  clocked now c c'.
Proof.
  intros He Ht. exists []. rewrite app_nil_r, Nat.add_0_r. now repeat split.
Qed.

Lemma clocked_emit now ph m c : clocked now c (emit now ph m c).
Proof.
  destruct (emit_appends now ph m c) as (s & Hs & _ & _ & _ & Hts).
  exists [s]. rewrite Hs, emitted_app. cbn. rewrite Hts.
  repeat split. lia.
Qed.

Lemma clocked_prevent now (pd : bool) e c :
  clocked now c (if pd then perform (PreventDefault e) c else c).
Proof.
  apply clocked_silent; [apply emitted_prevent | now destruct pd].
Qed.

Lemma clocked_onPointerDown now pd cp e c :
  clocked now c (onPointerDown now pd cp e c).
Proof.
  unfold onPointerDown.
  set (c1 := if pd then perform (PreventDefault e) c else c).
  set (c2 := if tracked_type (pointerType e) then _ else c1).
  set (c3 := if cp then _ else c2).
  set (c4 := if negb (State.active (vars c3)) then _ else c3).
  assert (clocked now c c4) as H4.
  { apply clocked_silent; subst c4 c3 c2 c1.
    - destruct pd, (tracked_type (pointerType e)), cp;
        destruct (negb _); cbn [with_vars effects];
        rewrite ?emitted_perform_other by discriminate;
        cbn [with_vars effects];
        rewrite ?emitted_perform_other by discriminate; reflexivity.
    - destruct pd, (tracked_type (pointerType e)), cp;
        destruct (negb _); reflexivity. }
  destruct (size_is_1_or_2 (vars c4)); [| exact H4].
  eapply clocked_trans; [exact H4 |].
  eapply clocked_trans; [| apply clocked_emit].
  now apply clocked_silent.
Qed.

Lemma clocked_onPointerMove now pd e c :
  clocked now c (onPointerMove now pd e c).
Proof.
  unfold onPointerMove.
  destruct (negb (PointerMap.has _ _)); [apply clocked_refl |].
  set (c1 := if pd then perform (PreventDefault e) c else c).
  assert (clocked now c c1) as H1 by apply clocked_prevent.
  destruct (PointerMap.get _ _); [| exact H1].
  set (c2 := with_vars _ c1).
  assert (clocked now c c2) as H2.
  { eapply clocked_trans; [exact H1 |]. now apply clocked_silent. }
  destruct (negb _); [exact H2 |].
  destruct (size_is_1_or_2 _); [| exact H2].
  eapply clocked_trans; [exact H2 | apply clocked_emit].
Qed.

Lemma clocked_endLike now pd ph e c :
  clocked now c (endLike now pd ph e c).
Proof.
  unfold endLike.
  destruct (negb (PointerMap.has _ _)); [apply clocked_refl |].
  set (c2 := with_vars _ _).
  assert (clocked now c c2) as H2.
  { eapply clocked_trans; [apply (clocked_prevent now pd e) |].
    now apply clocked_silent. }
  set (m := match getActivePoints (vars c2) with [] => _ | _ :: _ => _ end).
  assert (clocked now c (emit now ph m c2)) as H3.
  { eapply clocked_trans; [exact H2 | apply clocked_emit]. }
  destruct (size_is_1_or_2 _).
  - eapply clocked_trans; [exact H3 |].
    eapply clocked_trans; [| apply clocked_emit].
    now apply clocked_silent.
  - destruct (_ =? 0)%Z; [| exact H3].
    eapply clocked_trans; [exact H3 |]. now apply clocked_silent.
Qed.

Lemma clocked_feed now pd cp ns : forall c,
  clocked now c (feed now pd cp ns c).
Proof.
  induction ns as [| n ns IH]; intros c; [apply clocked_refl |].
  cbn [feed]. eapply clocked_trans; [| apply IH].
  destruct n; cbn [handle].
  - apply clocked_onPointerDown.
  - apply clocked_onPointerMove.
  - apply clocked_endLike.
  - apply clocked_endLike.
Qed.

(** X6.  The clock is read once for each snapshot: on every run the i-th
    snapshot emitted carries the i-th reading. *)
Theorem snapshots_carry_successive_readings now pd cp ns :
  let c := feed now pd cp ns fresh in
  ticks c = List.length (emitted (effects c)) /\
  map Snapshot.timestamp (emitted (effects c)) =
    map now (seq 0 (List.length (emitted (effects c)))).
Proof.
  intros c. destruct (clocked_feed now pd cp ns fresh) as (new & He & Ht & Hs).
  fold c in He, Ht. cbn in He, Ht, Hs. rewrite He. now split.
Qed.

Lemma state_eq (s1 s2 : State.t) :
  State.pointers s1 = State.pointers s2 ->
  State.active s1 = State.active s2 ->
  State.gestureStartCenter s1 = State.gestureStartCenter s2 ->
  State.gestureStartDistance s1 = State.gestureStartDistance s2 ->
  State.gestureStartAngleRad s1 = State.gestureStartAngleRad s2 ->
  State.lastCenter s1 = State.lastCenter s2 ->
  State.translation s1 = State.translation s2 ->
  s1 = s2.
Proof. destruct s1, s2. cbn. now intros -> -> -> -> -> -> ->. Qed.

Lemma ignored_while_idle now pd cp ns : forall c,
  State.pointers (vars c) = PointerMap.empty ->
  forallb (fun n => negb (is_pointerdown n)) ns = true ->
  feed now pd cp ns c = c.
Proof.
  induction ns as [| n ns IH]; intros c Hc Hns; [reflexivity |].
  cbn [forallb] in Hns. apply andb_true_iff in Hns. destruct Hns as [Hn Hns].
  cbn [feed].
  assert (handle now pd cp n c = c) as ->; [| now apply IH].
  destruct n; cbn in Hn; try discriminate; cbn [handle];
    unfold onPointerUp, onPointerCancel, onPointerMove, endLike;
    now rewrite Hc.
Qed.

(** X7.  When the only contact of the registry ends or cancels, one
    snapshot is emitted, with contact count 0, no pinch distance, scale 1,
    rotation 0, at the last emitted center (without delta) or, when nothing
    was emitted before, at the position of the event; the variables are then
    those of a fresh attachment, and notifications other than pointerdown
    change nothing until the next pointerdown. *)
Theorem last_release_resets now pd cp ph e c :
  PointerMap.has (pointerId e) (State.pointers (vars c)) = true ->
  PointerMap.delete (pointerId e) (State.pointers (vars c)) =
    PointerMap.empty ->
  let c' := endLike now pd ph e c in
  vars c' = State.initial /\
  (exists s,
     emitted (effects c') = emitted (effects c) ++ [s] /\
     Snapshot.phase s = ph /\
     Snapshot.pointers s = 0%Z /\
     Snapshot.pinchDistance s = None /\
     Snapshot.scale s = 1 /\
     Snapshot.rotationRad s = 0 /\
     Snapshot.center s =
       match State.lastCenter (vars c) with
       | Some lc => lc
       | None => {| x := clientX e; y := clientY e |}
       end /\
     (State.lastCenter (vars c) <> None -> Snapshot.delta s = origin)) /\
  (forall ns,
     forallb (fun n => negb (is_pointerdown n)) ns = true ->
     feed now pd cp ns c' = c').
Proof.
  intros Hhas Hdel c'.
  assert (c' =
          with_vars (fun st => resetGestureState (set_active false st))
            (emit now ph
               (no_pinch
                  match State.lastCenter (vars c) with
                  | Some p => {| x := x p; y := y p |}
                  | None => {| x := clientX e; y := clientY e |}
                  end)
               (with_vars
                  (fun st =>
                     set_pointers
                       (PointerMap.delete (pointerId e) (State.pointers st))
                       st)
                  (if pd then perform (PreventDefault e) c else c)))) as Hc'.
  { subst c'. unfold endLike. rewrite Hhas. cbn [negb].
    set (c2 := with_vars _ _).
    assert (State.pointers (vars c2) = PointerMap.empty) as Hp2.
    { subst c2. cbn. now rewrite vars_prevent. }
    assert (getActivePoints (vars c2) = []) as Hpts.
    { unfold getActivePoints. now rewrite Hp2. }
    rewrite Hpts.
    assert (State.lastCenter (vars c2) = State.lastCenter (vars c)) as ->.
    { subst c2. cbn. now rewrite vars_prevent. }
    unfold size_is_1_or_2. rewrite emit_vars_pointers, Hp2. reflexivity. }
  assert (vars c' = State.initial) as Hinit.
  { rewrite Hc'. apply state_eq; cbn; try reflexivity.
    now rewrite vars_prevent. }
  split; [exact Hinit |]. split.
  - rewrite Hc'. cbn [with_vars effects emit]. rewrite emitted_app.
    cbn [with_vars effects]. rewrite emitted_prevent.
    eexists. split; [reflexivity |].
    cbn. rewrite !vars_prevent, Hdel. cbn.
    repeat split.
    + now destruct (State.gestureStartDistance (vars c)).
    + now destruct (State.gestureStartAngleRad (vars c)).
    + destruct (State.lastCenter (vars c)) as [[lx ly] |]; reflexivity.
    + destruct (State.lastCenter (vars c)) as [[lx ly] |];
        [| congruence].
      intros _. unfold origin, toReadonlyPoint. cbn. f_equal; lra.
  - intros ns Hns. apply ignored_while_idle; [| exact Hns].
    now rewrite Hinit.
Qed.

Lemma set_absent (id : Z) (v : MutablePoint) (m : PointerMap.t) :
  PointerMap.has id m = false -> PointerMap.set id v m = m ++ [(id, v)].
Proof.
  induction m as [| [k w] m IH]; cbn; [reflexivity |].
  destruct (k =? id)%Z; [discriminate |]. intros H. now rewrite IH.
Qed.

Lemma computeMetrics_first_two (pts more : list MutablePoint) :
  (2 <= List.length pts)%nat ->
  computeMetrics (pts ++ more) = computeMetrics pts.
Proof.
  destruct pts as [| a [| b pts]]; cbn [List.length]; try lia. reflexivity.
Qed.


(** ** The options *)

Lemma allowed_emit now pd cp ph m c :
  Forall (allowed pd cp) (effects c) ->
  Forall (allowed pd cp) (effects (emit now ph m c)).
Proof.
  intros H. cbn [emit effects]. apply Forall_app. split; [exact H |].
  now repeat constructor.
Qed.

Lemma allowed_prevent pd cp e c :
  Forall (allowed pd cp) (effects c) ->
  Forall (allowed pd cp)
    (effects (if pd then perform (PreventDefault e) c else c)).
Proof.
  intros H. destruct pd; [| exact H].
  cbn [perform effects]. apply Forall_app. split; [exact H |].
  now repeat constructor.
Qed.

Lemma allowed_capture pd cp id c :
  Forall (allowed pd cp) (effects c) ->
  Forall (allowed pd cp)
    (effects (if cp then perform (SetPointerCapture id) c else c)).
Proof.
  intros H. destruct cp; [| exact H].
  cbn [perform effects]. apply Forall_app. split; [exact H |].
  now repeat constructor.
Qed.

Lemma allowed_handle now pd cp n c :
  Forall (allowed pd cp) (effects c) ->
  Forall (allowed pd cp) (effects (handle now pd cp n c)).
Proof.
  intros H.
  assert (forall ph e, Forall (allowed pd cp)
                         (effects (endLike now pd ph e c))) as Hend.
  { intros ph e. unfold endLike.
    destruct (negb (PointerMap.has _ _)); [exact H |].
    set (c2 := with_vars _ _).
    assert (Forall (allowed pd cp) (effects c2)) as H2
      by (subst c2; cbn [with_vars effects]; now apply allowed_prevent).
    set (m := match getActivePoints (vars c2) with [] => _ | _ :: _ => _ end).
    pose proof (allowed_emit now pd cp ph m c2 H2) as H3.
    destruct (size_is_1_or_2 _); [now apply allowed_emit |].
    destruct (_ =? 0)%Z; exact H3. }
  destruct n; cbn [handle]; [| | apply Hend | apply Hend].
  - unfold onPointerDown.
    set (c1 := if pd then perform (PreventDefault e) c else c).
    assert (Forall (allowed pd cp) (effects c1)) as H1
      by now apply allowed_prevent.
    set (c2 := if tracked_type (pointerType e) then _ else c1).
    assert (Forall (allowed pd cp) (effects c2)) as H2
      by (subst c2; now destruct (tracked_type _)).
    set (c3 := if cp then _ else c2).
    assert (Forall (allowed pd cp) (effects c3)) as H3
      by now apply allowed_capture.
    set (c4 := if negb (State.active (vars c3)) then _ else c3).
    assert (Forall (allowed pd cp) (effects c4)) as H4
      by (subst c4; now destruct (negb _)).
    destruct (size_is_1_or_2 _); [| exact H4]. now apply allowed_emit.
  - unfold onPointerMove.
    destruct (negb (PointerMap.has _ _)); [exact H |].
    set (c1 := if pd then perform (PreventDefault e) c else c).
    assert (Forall (allowed pd cp) (effects c1)) as H1
      by now apply allowed_prevent.
    destruct (PointerMap.get _ _); [| exact H1].
    destruct (negb _); [exact H1 |].
    destruct (size_is_1_or_2 _); [| exact H1]. now apply allowed_emit.
Qed.

Lemma allowed_feed now pd cp ns : forall c,
  Forall (allowed pd cp) (effects c) ->
  Forall (allowed pd cp) (effects (feed now pd cp ns c)).
Proof.
  induction ns as [| n ns IH]; intros c H; [exact H |].
  cbn [feed]. now apply IH, allowed_handle.
Qed.

Lemma effects_grow_emit now ph m c : exists more,
  effects (emit now ph m c) = effects c ++ more.
Proof. eexists. reflexivity. Qed.

(** X10.  A recognizer with [preventDefault] off never calls
    [preventDefault()], one with [capturePointers] off never calls
    [setPointerCapture()].  With [preventDefault] on, the first thing a
    handler does is [preventDefault()] on the event, for every pointerdown
    and for the other notifications of a tracked contact; with
    [capturePointers] on, every pointerdown, of whatever pointer type, calls
    [setPointerCapture()] with the identifier of the event. *)
Theorem options_gate_the_effects now pd cp :
  (forall ns, Forall (allowed pd cp) (effects (feed now pd cp ns fresh))) /\
  (forall n c,
     pd = true ->
     is_pointerdown n = true \/
     PointerMap.has (pointerId (event_of n)) (State.pointers (vars c)) = true ->
     exists more,
       effects (handle now pd cp n c) =
       effects c ++ PreventDefault (event_of n) :: more) /\
  (forall e c,
     cp = true ->
     In (SetPointerCapture (pointerId e))
       (effects (onPointerDown now pd cp e c))).
Proof.
  split; [intros ns; apply allowed_feed; constructor |]. split.
  - intros n c -> Hn.
    assert (forall ph e,
              PointerMap.has (pointerId e) (State.pointers (vars c)) = true ->
              exists more,
                effects (endLike now true ph e c) =
                effects c ++ PreventDefault e :: more) as Hend.
    { intros ph e Hhas. unfold endLike. rewrite Hhas. cbn [negb].
      set (c2 := with_vars _ _).
      set (m := match getActivePoints (vars c2) with
                | [] => _ | _ :: _ => _ end).
      assert (effects c2 = effects c ++ [PreventDefault e]) as H2
        by reflexivity.
      destruct (size_is_1_or_2 _); [| destruct (_ =? 0)%Z];
        cbn [emit with_vars effects]; rewrite H2, <- ?app_assoc;
        eexists; reflexivity. }
    destruct n as [e | e | e | e]; cbn [handle event_of];
      unfold onPointerUp, onPointerCancel.
    + unfold onPointerDown.
      set (c1 := perform (PreventDefault e) c).
      set (c2 := if tracked_type (pointerType e) then _ else c1).
      set (c3 := if cp then _ else c2).
      set (c4 := if negb (State.active (vars c3)) then _ else c3).
      assert (exists more, effects c4 = effects c ++ PreventDefault e :: more)
        as (more & H4).
      { subst c4 c3 c2 c1.
        destruct (negb _), cp, (tracked_type _); cbn;
          rewrite <- ?app_assoc; eexists; reflexivity. }
      destruct (size_is_1_or_2 _); [| now exists more].
      cbn [emit with_vars effects]. rewrite H4, <- app_assoc.
      eexists. reflexivity.
    + destruct Hn as [Hn | Hhas]; [discriminate | cbn in Hhas].
      unfold onPointerMove. rewrite Hhas. cbn [negb].
      destruct (has_get _ _ Hhas) as [p Hp]. cbn [perform vars]. rewrite Hp.
      set (c2 := with_vars _ _).
      assert (effects c2 = effects c ++ [PreventDefault e]) as H2
        by reflexivity.
      destruct (negb _); [| destruct (size_is_1_or_2 _)];
        cbn [emit effects]; rewrite H2, <- ?app_assoc; eexists; reflexivity.
    + destruct Hn as [Hn | Hhas]; [discriminate | now apply Hend].
    + destruct Hn as [Hn | Hhas]; [discriminate | now apply Hend].
  - intros e c ->. unfold onPointerDown.
    set (c1 := if pd then perform (PreventDefault e) c else c).
    set (c2 := if tracked_type (pointerType e) then _ else c1).
    set (c3 := perform (SetPointerCapture (pointerId e)) c2).
    set (c4 := if negb (State.active (vars c3)) then _ else c3).
    assert (In (SetPointerCapture (pointerId e)) (effects c4)) as H4.
    { subst c4 c3. destruct (negb _); cbn; apply in_or_app; right;
        now left. }
    destruct (size_is_1_or_2 _); [| exact H4].
    cbn [emit with_vars effects]. apply in_or_app. now left.
Qed.

(** ** Where the registered ids come from *)

Lemma handle_keys now pd cp n c id :
  In id (PointerMap.keys (State.pointers (vars (handle now pd cp n c)))) ->
  In id (PointerMap.keys (State.pointers (vars c))) \/
  exists e,
    n = pointerdown e /\ pointerId e = id /\
    tracked_type (pointerType e) = true.
Proof.
  destruct n as [e | e | e | e]; cbn [handle];
    unfold onPointerUp, onPointerCancel.
  - rewrite onPointerDown_pointers.
    destruct (tracked_type (pointerType e)) eqn:Hty; [| now left].
    rewrite keys_set. destruct (PointerMap.has _ _); [now left |].
    intros H. apply in_app_or in H. destruct H as [H | [<- | []]];
      [now left |].
    right. now exists e.
  - rewrite onPointerMove_pointers.
    destruct (PointerMap.has _ _) eqn:Hhas; [| now left].
    rewrite keys_set_present by exact Hhas. now left.
  - rewrite endLike_pointers.
    destruct (PointerMap.has _ _); [| now left].
    intros H. left. eapply In_keys_delete, H.
  - rewrite endLike_pointers.
    destruct (PointerMap.has _ _); [| now left].
    intros H. left. eapply In_keys_delete, H.
Qed.

Lemma feed_keys now pd cp ns id : forall c,
  In id (PointerMap.keys (State.pointers (vars (feed now pd cp ns c)))) ->
  In id (PointerMap.keys (State.pointers (vars c))) \/
  exists e,
    In (pointerdown e) ns /\ pointerId e = id /\
    tracked_type (pointerType e) = true.
Proof.
  induction ns as [| n ns IH]; intros c H; [now left |].
  cbn [feed] in H. destruct (IH _ H) as [Hin | (e & He & Hid & Hty)].
  - destruct (handle_keys now pd cp n c id Hin)
      as [Hc | (e & -> & Hid & Hty)]; [now left |].
    right. exists e. repeat split; auto. now left.
  - right. exists e. repeat split; auto. now right.
Qed.

(** X11.  Every identifier in the registry, on every run, is that of a
    pointerdown of the run whose pointer type is touch, pen or mouse. *)
Theorem registered_ids_were_tracked_pointerdowns now pd cp ns id :
  In id
    (PointerMap.keys (State.pointers (vars (feed now pd cp ns fresh)))) ->
  exists e,
    In (pointerdown e) ns /\ pointerId e = id /\
    tracked_type (pointerType e) = true.
Proof.
  intros H. destruct (feed_keys now pd cp ns id fresh H) as [[] | He].
  exact He.
Qed.

(** ** Detaching and the rest of the page *)

Lemma feed_app now pd cp ns ns' c :
  feed now pd cp (ns ++ ns') c = feed now pd cp ns' (feed now pd cp ns c).
Proof.
  revert c. induction ns as [| n ns IH]; intros c; [reflexivity |].
  cbn [app feed]. apply IH.
Qed.

Lemma foreign_owned k k' ls : k' <> k -> foreign k (owned k' ls).
Proof.
  intros Hne l Hl. apply filter_In in Hl. destruct Hl as [_ Hl].
  apply Nat.eqb_eq in Hl. congruence.
Qed.

Lemma owned_remove k l el :
  l_closure l <> k ->
  owned k (listeners (removeEventListener l el)) = owned k (listeners el).
Proof.
  intros Hne. unfold removeEventListener. cbn [listeners].
  rewrite owned_filter.
  apply (filter_foreign (l_closure l)); [| reflexivity].
  apply foreign_owned. congruence.
Qed.

Lemma owned_remove_four k k' el :
  k' <> k ->
  owned k
    (listeners
       (fold_left (fun el l => removeEventListener l el)
          (four_listeners k') el)) =
  owned k (listeners el).
Proof.
  intros Hne. unfold four_listeners. cbn [fold_left].
  now rewrite !owned_remove by (cbn; exact Hne).
Qed.

Lemma detach_elements_length k t pg :
  List.length (elements (detach k t pg)) = List.length (elements pg).
Proof.
  unfold detach, update_closure, update_element.
  destruct (nth_error (elements pg) t); cbn [elements closures];
    (destruct (nth_error _ k); cbn [elements]);
    rewrite ?length_replace_nth; reflexivity.
Qed.

Lemma detach_element k t pg t' :
  nth_error (elements (detach k t pg)) t' =
  match nth_error (elements pg) t' with
  | Some el =>
      Some (if Nat.eqb t' t
            then fold_left (fun el l => removeEventListener l el)
                   (four_listeners k) el
            else el)
  | None => None
  end.
Proof.
  unfold detach, update_closure, update_element.
  destruct (nth_error (elements pg) t) as [el |] eqn:Hel.
  - assert (nth_error
              (replace_nth t
                 (fold_left (fun el l => removeEventListener l el)
                    (four_listeners k) el) (elements pg)) t' =
            match nth_error (elements pg) t' with
            | Some el' =>
                Some (if Nat.eqb t' t
                      then fold_left (fun el l => removeEventListener l el)
                             (four_listeners k) el'
                      else el')
            | None => None
            end) as H.
    { rewrite nth_error_replace_nth by (eapply nth_error_lt, Hel).
      destruct (Nat.eqb t' t) eqn:E.
      - apply Nat.eqb_eq in E. subst t'. now rewrite Hel.
      - now destruct (nth_error (elements pg) t'). }
    cbn [closures elements]. destruct (nth_error (closures pg) k);
      cbn [elements]; exact H.
  - assert (nth_error (elements pg) t' =
            match nth_error (elements pg) t' with
            | Some el' =>
                Some (if Nat.eqb t' t
                      then fold_left (fun el l => removeEventListener l el)
                             (four_listeners k) el'
                      else el')
            | None => None
            end) as H.
    { destruct (nth_error (elements pg) t') as [el' |] eqn:Hel';
        [| reflexivity].
      destruct (Nat.eqb t' t) eqn:E; [| reflexivity].
      apply Nat.eqb_eq in E. subst t'. congruence. }
    destruct (nth_error (closures pg) k); cbn [elements]; exact H.
Qed.

Lemma detach_attached_other k k' t t' pg :
  k' <> k -> attached k t pg -> attached k t (detach k' t' pg).
Proof.
  intros Hne [Ht Hown]. split; [now rewrite detach_elements_length |].
  intros t'' el. rewrite detach_element.
  destruct (nth_error (elements pg) t'') as [el' |] eqn:Hel';
    [| discriminate].
  intros [= <-]. rewrite <- (Hown t'' el' Hel').
  destruct (Nat.eqb t'' t'); [| reflexivity].
  now apply owned_remove_four.
Qed.

Lemma detach_closure_other k k' t' pg :
  k' <> k ->
  nth_error (closures (detach k' t' pg)) k = nth_error (closures pg) k.
Proof.
  intros Hne. unfold detach, update_closure, update_element.
  destruct (nth_error (elements pg) t'); cbn [closures];
    (destruct (nth_error _ k'); cbn [closures];
     [apply nth_error_replace_nth_other; congruence | reflexivity]).
Qed.

(** X12.  Two recognizers attached on a page; one is detached after some
    notifications.  The other one goes on as if nothing had happened: in the
    end it has emitted, clock readings apart, what a recognizer fed alone
    with the notifications delivered to its element, before and after the
    detaching, emits. *)
Theorem detach_leaves_other_attachments
    now pg t1 t2 h1 h2 o1 o2 el1 el2 pgA pgB d1 d2 sched sched' :
  page_ok pg ->
  nth_error (elements pg) t1 = Some el1 ->
  attachPinchPanGesture (Some t1) h1 o1 pg = Normal (pgA, d1) ->
  nth_error (elements pgA) t2 = Some el2 ->
  attachPinchPanGesture (Some t2) h2 o2 pgA = Normal (pgB, d2) ->
  let k1 := List.length (closures pg) in
  let k2 := S k1 in
  forall now0 pd0 cp0,
    map untimed
      (snapshots_of k2 (deliver now sched' (d1 (deliver now sched pgB)))) =
    map untimed
      (emitted
         (effects
            (feed now0 pd0 cp0 (sent_to t2 sched ++ sent_to t2 sched')
               fresh))) /\
    map untimed
      (snapshots_of k1 (deliver now sched' (d2 (deliver now sched pgB)))) =
    map untimed
      (emitted
         (effects
            (feed now0 pd0 cp0 (sent_to t1 sched ++ sent_to t1 sched')
               fresh))).
Proof.
  intros Hok Hel1 Hatt1 Hel2 Hatt2 k1 k2 now0 pd0 cp0.
  destruct (attach_attached t1 h1 o1 pg el1 pgA d1 Hok Hel1 Hatt1)
    as (HokA & HattA & _ & HclA & _).
  destruct (attach_attached t2 h2 o2 pgA el2 pgB d2 HokA Hel2 Hatt2)
    as (_ & HattB2 & _ & HclB & Hkeep).
  assert (List.length (closures pgA) = k2) as Hk2.
  { rewrite HclA, length_app. cbn. subst k2 k1. lia. }
  rewrite Hk2 in HattB2.
  assert (attached k1 t1 pgB) as HattB1.
  { apply Hkeep; [| exact HattA]. rewrite Hk2. subst k2. lia. }
  assert (nth_error (closures pgB) k1 = Some (new_closure h1 o1)) as Hc1.
  { rewrite HclB, HclA. rewrite nth_error_app1
      by (rewrite length_app; cbn; subst k1; lia).
    rewrite nth_error_app2 by (subst k1; lia).
    subst k1. now rewrite Nat.sub_diag. }
  assert (nth_error (closures pgB) k2 = Some (new_closure h2 o2)) as Hc2.
  { rewrite HclB. rewrite nth_error_app2 by lia.
    rewrite Hk2. now rewrite Nat.sub_diag. }
  assert (d1 = detach k1 t1) as ->.
  { rewrite (attach_present t1 h1 o1 pg el1 Hok Hel1) in Hatt1.
    now injection Hatt1. }
  assert (d2 = detach k2 t2) as ->.
  { rewrite (attach_present t2 h2 o2 pgA el2 HokA Hel2) in Hatt2.
    injection Hatt2 as _ <-. now rewrite Hk2. }
  assert (forall k t k' t' h o,
            k' <> k -> attached k t pgB ->
            nth_error (closures pgB) k = Some (new_closure h o) ->
            map untimed
              (snapshots_of k
                 (deliver now sched' (detach k' t' (deliver now sched pgB)))) =
            map untimed
              (emitted
                 (effects
                    (feed now0 pd0 cp0 (sent_to t sched ++ sent_to t sched')
                       fresh)))) as Hgen.
  { intros k t k' t' h o Hne Hatt Hcl.
    destruct (deliver_attached now now0 pd0 cp0 k t sched pgB _ fresh
                Hatt Hcl (runs_as_new h o)) as (cl & Hcl' & Hrun).
    assert (attached k t (deliver now sched pgB)) as Hatt'.
    { unfold attached. now rewrite deliver_elements. }
    pose proof (detach_attached_other k k' t t' _ Hne Hatt') as Hatt''.
    pose proof (detach_closure_other k k' t' (deliver now sched pgB) Hne)
      as Hsame.
    rewrite Hcl' in Hsame.
    destruct (deliver_attached now now0 pd0 cp0 k t sched' _ cl _
                Hatt'' Hsame Hrun) as (cl' & Hcl'' & _ & Hrun').
    unfold snapshots_of. rewrite Hcl'', feed_app. exact Hrun'. }
  split.
  - apply (Hgen k2 t2 k1 t1 h2 o2); auto; subst k2; lia.
  - apply (Hgen k1 t1 k2 t2 h1 o1); auto; subst k2; lia.
Qed.

(** X13.  Attaching sets [touch-action] to none on the element unless an
    inline value is there, which it keeps, and appends the four listeners.
    Detaching gives back the listeners of the element, but leaves the
    [touch-action] attaching has set; the other elements of the page are as
    before the attachment. *)
Theorem detach_keeps_touch_action now t h o pg el sched pg1 d :
  page_ok pg ->
  nth_error (elements pg) t = Some el ->
  attachPinchPanGesture (Some t) h o pg = Normal (pg1, d) ->
  nth_error (elements pg1) t =
    Some {| touchAction :=
              if String.eqb (touchAction el) "" then "none"%string
              else touchAction el;
            listeners := listeners el ++
                         four_listeners (List.length (closures pg)) |} /\
  nth_error (elements (d (deliver now sched pg1))) t =
    Some {| touchAction :=
              if String.eqb (touchAction el) "" then "none"%string
              else touchAction el;
            listeners := listeners el |} /\
  forall t',
    t' <> t ->
    nth_error (elements (d (deliver now sched pg1))) t' =
    nth_error (elements pg) t'.
Proof.
  intros Hok Hel Hattach.
  rewrite (attach_present t h o pg el Hok Hel) in Hattach.
  injection Hattach as <- <-.
  set (k := List.length (closures pg)).
  assert (t < List.length (elements pg))%nat as Ht
    by (eapply nth_error_lt, Hel).
  assert (foreign k (listeners el)) as Hf.
  { eapply page_ok_foreign; [exact Hok |]. eapply nth_error_In, Hel. }
  split; [| split].
  - cbn [elements]. now apply nth_error_replace_nth_same.
  - rewrite detach_element, deliver_elements. cbn [elements].
    rewrite nth_error_replace_nth_same by exact Ht.
    rewrite Nat.eqb_refl. unfold bound. fold k.
    now rewrite remove_four_listeners.
  - intros t' Hne. rewrite detach_element, deliver_elements. cbn [elements].
    rewrite nth_error_replace_nth_other by exact Hne.
    destruct (nth_error (elements pg) t'); [| reflexivity].
    apply Nat.eqb_neq in Hne. now rewrite Hne.
Qed.

(** X3.  Between two notifications of any run: with a contact in the
    registry the session is active; the anchor center and the last center are
    defined exactly when there is at least one contact, the anchor distance
    and the anchor angle exactly when there are at least two; the translation
    is the last center minus the anchor center. *)
Theorem session_is_consistent now pd cp ns :
  let st := vars (feed now pd cp ns fresh) in
  let n := PointerMap.size (State.pointers st) in
  ((1 <= n)%Z -> State.active st = true) /\
  is_point (State.gestureStartCenter st) = (1 <=? n)%Z /\
  is_point (State.lastCenter st) = (1 <=? n)%Z /\
  is_number (State.gestureStartDistance st) = (2 <=? n)%Z /\
  is_number (State.gestureStartAngleRad st) = (2 <=? n)%Z /\
  State.translation st =
    match State.lastCenter st, State.gestureStartCenter st with
    | Some lc, Some g => {| x := x lc - x g; y := y lc - y g |}
    | _, _ => origin
    end.
Proof.
  intros st n.
  destruct (session_inv_feed now pd cp ns fresh session_inv_initial)
    as [Ha [Hg Hl] Hd Hr Ht].
  repeat split; assumption.
Qed.

Lemma session_is_consistent_witness :
  let st :=
    vars (feed steady_clock true true
            [ pointerdown (contact 1 "touch" 0 0);
              pointerdown (contact 2 "touch" 100 0);
              pointermove (contact 2 "touch" 100 40) ] fresh) in
  (1 <= PointerMap.size (State.pointers st))%Z /\
  State.active st = true /\
  is_number (State.gestureStartDistance st) = true.
Proof.
  intros st.
  destruct (session_is_consistent steady_clock true true
              [ pointerdown (contact 1 "touch" 0 0);
                pointerdown (contact 2 "touch" 100 0);
                pointermove (contact 2 "touch" 100 40) ])
    as (Ha & _ & _ & Hd & _).
  assert (1 <= PointerMap.size (State.pointers st))%Z as H1 by (cbn; lia).
  split; [exact H1 |]. split; [exact (Ha H1) |].
  subst st. rewrite Hd. cbn. reflexivity.
Defined.

Lemma registry_ids_are_distinct_witness :
  let ns :=
    [ pointerdown (contact 1 "touch" 0 0);
      pointerdown (contact 2 "pen" 100 0) ] in
  let c := feed steady_clock true true ns fresh in
  let e := contact 3 "mouse" 5 6 in
  let e1 := contact 1 "touch" 0 0 in
  tracked_type (pointerType e) = true /\
  PointerMap.get (pointerId e)
    (State.pointers (vars (onPointerDown steady_clock true true e c))) =
    Some {| x := clientX e; y := clientY e |} /\
  PointerMap.has (pointerId e1)
    (State.pointers (vars (onPointerUp steady_clock true e1 c))) = false.
Proof.
  intros ns c e e1.
  destruct (registry_ids_are_distinct steady_clock true true ns)
    as (_ & Hgone & Hget).
  assert (tracked_type (pointerType e) = true) as Hty by reflexivity.
  split; [exact Hty |]. split.
  - exact (Hget e Hty).
  - exact (proj1 (Hgone e1)).
Defined.

Lemma unknown_contact_is_ignored_witness :
  let e := contact 9 "touch" 1 2 in
  let c :=
    feed steady_clock true true [pointerdown (contact 1 "touch" 0 0)] fresh in
  PointerMap.has (pointerId e) (State.pointers (vars c)) = false /\
  handle steady_clock true true (pointermove e) c = c /\
  handle steady_clock true true (pointerup e) c = c /\
  handle steady_clock true true (pointercancel e) c = c.
Proof.
  intros e c.
  assert (PointerMap.has (pointerId e) (State.pointers (vars c)) = false)
    as H by (cbn; reflexivity).
  split; [exact H |].
  exact (unknown_contact_is_ignored steady_clock true true e c H).
Defined.

Lemma last_release_resets_witness :
  let e := contact 1 "touch" 30 10 in
  let c :=
    feed steady_clock true true
      [ pointerdown (contact 1 "touch" 10 10); pointermove e ] fresh in
  vars (endLike steady_clock true phase_end e c) = State.initial /\
  exists s,
    emitted (effects (endLike steady_clock true phase_end e c)) =
      emitted (effects c) ++ [s] /\
    Snapshot.pointers s = 0%Z /\
    Snapshot.center s = {| x := 30; y := 10 |}.
Proof.
  intros e c.
  destruct (last_release_resets steady_clock true true phase_end e c)
    as (Hinit & (s & Hs & _ & Hp & _ & _ & _ & Hc & _) & _).
  - cbn; reflexivity.
  - cbn; reflexivity.
  - split; [exact Hinit |]. exists s. repeat split; assumption.
Defined.


Lemma options_gate_the_effects_witness :
  let e := contact 1 "mouse" 3 4 in
  (exists more,
     effects (handle steady_clock true false (pointerdown e) fresh) =
     effects fresh ++ PreventDefault e :: more) /\
  In (SetPointerCapture 1)
    (effects (onPointerDown steady_clock false true e fresh)).
Proof.
  intros e. split.
  - apply (proj1 (proj2 (options_gate_the_effects steady_clock true false))
             (pointerdown e) fresh eq_refl).
    left. cbn. reflexivity.
  - apply (proj2 (proj2 (options_gate_the_effects steady_clock false true))
             e fresh eq_refl).
Defined.

Lemma registered_ids_were_tracked_pointerdowns_witness :
  let ns :=
    [ pointerdown (contact 1 "touch" 0 0);
      pointerdown (contact 2 "" 5 5);
      pointerdown (contact 3 "pen" 100 0);
      pointerup (contact 1 "touch" 0 0) ] in
  PointerMap.keys
    (State.pointers (vars (feed steady_clock true true ns fresh))) = [3%Z] /\
  exists e,
    In (pointerdown e) ns /\ pointerId e = 3%Z /\
    tracked_type (pointerType e) = true.
Proof.
  intros ns. split; [cbn; reflexivity |].
  apply (registered_ids_were_tracked_pointerdowns steady_clock true true ns).
  cbn. now left.
Defined.

Lemma detach_leaves_other_attachments_witness :
  let e := contact 1 "touch" 0 0 in
  let e' := contact 1 "touch" 40 30 in
  let sched := [ (0%nat, pointerdown e); (1%nat, pointerdown e) ] in
  let sched' := [ (0%nat, pointermove e'); (1%nat, pointermove e') ] in
  let pgA :=
    {| elements := [bound 0 blank_element; blank_element];
       closures := [new_closure all_handlers no_options];
       page_ticks := 0 |} in
  let pgB :=
    {| elements := [bound 0 blank_element; bound 1 blank_element];
       closures := [ new_closure all_handlers no_options;
                     new_closure all_handlers no_options ];
       page_ticks := 0 |} in
  map untimed
    (snapshots_of 1
       (deliver steady_clock sched'
          (detach 0 0 (deliver steady_clock sched pgB)))) =
  map untimed
    (emitted
       (effects
          (feed steady_clock true true [pointerdown e; pointermove e']
             fresh))).
Proof.
  intros e e' sched sched' pgA pgB.
  refine (proj1
    (detach_leaves_other_attachments steady_clock (blank_page 2) 0%nat 1%nat
       all_handlers all_handlers no_options no_options
       blank_element blank_element pgA pgB (detach 0 0) (detach 1 1)
       sched sched' (page_ok_blank 2) eq_refl _ eq_refl _
       steady_clock true true)).
  - cbn. reflexivity.
  - cbn. reflexivity.
Defined.

Lemma detach_keeps_touch_action_witness :
  let pg1 :=
    {| elements := [bound 0 blank_element];
       closures := [new_closure all_handlers no_options];
       page_ticks := 0 |} in
  let sched := [ (0%nat, pointerdown (contact 1 "touch" 10 10)) ] in
  nth_error (elements (blank_page 1)) 0 = Some blank_element /\
  nth_error (elements (detach 0 0 (deliver steady_clock sched pg1))) 0 =
    Some {| touchAction := "none"; listeners := [] |}.
Proof.
  intros pg1 sched. split; [cbn; reflexivity |].
  refine (proj1 (proj2
    (detach_keeps_touch_action steady_clock 0%nat all_handlers no_options
       (blank_page 1) blank_element sched pg1 (detach 0 0)
       (page_ok_blank 1) eq_refl _))).
  cbn. reflexivity.
Defined.
